(** * TaskMaster: channel, task and messaging stores

    A shallow embedding of the four React context providers of the
    application (ChannelContext, TaskContext, ChatContext and
    DirectMessageContext) together with the part of the Firestore client
    SDK they call.  A collection is a finite map from document ids to
    document data; a provider function is a computation over the provider's
    state (the collections it touches, its local React state and its
    [error] slot) that either returns a value or throws an [Error] whose
    message is a string. *)

From stdpp Require Import gmap strings list sorting pretty.
From Stdlib Require Import ZArith.

Local Open Scope Z_scope.
Local Open Scope string_scope.
Local Open Scope list_scope.

(** ** Provider computations

    Every provider function has the shape
    [try { ... } catch (err) { setError(err.message); throw err; }].
    [M S A] is a computation over a provider state [S] that returns an [A]
    or throws the message of a JavaScript [Error]. *)

Definition M (S A : Type) : Type := S -> (string + A) * S.

Global Instance M_ret {S} : MRet (M S) := fun A (a : A) s => (inr a, s).

Definition throw {S A} (msg : string) : M S A := fun s => (inl msg, s).

Global Instance M_bind {S} : MBind (M S) := fun A B (k : A -> M S B) (m : M S A) s =>
  match m s with
  | (inl e, s') => (inl e, s')
  | (inr a, s') => k a s'
  end.

Definition gets {S A} (f : S -> A) : M S A := fun s => (inr (f s), s).

Definition modify {S} (f : S -> S) : M S unit := fun s => (inr tt, f s).

(** [catch (err) { handler(err.message); throw err; }] *)
Definition rethrowing {S A} (handler : string -> S -> S) (body : M S A) : M S A :=
  fun s =>
    match body s with
    | (inl e, s') => (inl e, handler e s')
    | (inr a, s') => (inr a, s')
    end.

(** [if (cond) throw new Error(msg)] *)
Definition throwIf {S} (cond : bool) (msg : string) : M S unit :=
  if cond then throw msg else mret tt.

Definition succeeded {S A} (r : (string + A) * S) : bool :=
  match r.1 with inr _ => true | inl _ => false end.

Definition failsWith {S A} (msg : string) (r : (string + A) * S) : Prop :=
  r.1 = inl msg.

(** ** JavaScript and Firestore helpers *)

(** [Array.prototype.includes] on an array of strings. *)
Definition includes (l : list string) (x : string) : bool :=
  bool_decide (x ∈ l).

(** Firestore's [arrayUnion(x)]: [x] is appended unless already present. *)
Definition arrayUnion (x : string) (l : list string) : list string :=
  if includes l x then l else l ++ [x].

(** Firestore's [arrayRemove(x)]: every occurrence of [x] is removed. *)
Definition arrayRemove (x : string) (l : list string) : list string :=
  filter (fun y => y ≠ x) l.

(** Truthiness of an optional string: [undefined], [null] and the empty
    string are falsy. *)
Definition truthy (s : option string) : bool :=
  match s with
  | Some v => negb (String.eqb v "")
  | None => false
  end.

(** Message of the [FirebaseError] that [updateDoc] raises when the
    referenced document does not exist. *)
Definition NoDocumentToUpdate : string := "No document to update".

(** Message of the [FirebaseError] that [addDoc] and [updateDoc] raise,
    before anything is sent, when the data holds a property whose value is
    [undefined] (the SDK's message also names the function, the field and
    the document).  [db] is taken to have the SDK's default settings,
    under which [ignoreUndefinedProperties] is off. *)
Definition UnsupportedFieldValue : string := "Unsupported field value: undefined".

(** An own property of a JavaScript object: not there, there with the
    value [undefined], or there with a value.  [{ ...o }] copies the
    property in the last two cases. *)
Module Field.
Inductive t (A : Type) : Type :=
| absent : t A
| undefined : t A
| value : A -> t A.
Global Arguments absent {A}.
Global Arguments undefined {A}.
Global Arguments value {A} _.

(** [o.p]: what the code reads; [None] is [undefined]. *)
Definition read {A} (p : t A) : option A :=
  match p with value a => Some a | _ => None end.

Definition isUndefined {A} (p : t A) : bool :=
  match p with undefined => true | _ => false end.


(** The stored field after a write of the property over [old]. *)
Definition write {A} (p : t A) (old : A) : A :=
  match p with value a => a | _ => old end.

Definition writeOptional {A} (p : t A) (old : option A) : option A :=
  match p with value a => Some a | _ => old end.
End Field.

(** The signed-in identity of the authentication context. *)
Record User := mkUser {
  uid : string;
  displayName : option string
}.

(** *** Ordered queries

    Firestore returns the documents of a query in the order of its
    [orderBy] clause and breaks ties by document id; without an [orderBy]
    the order is by document id.  A sort key is the pair of the ordered
    field and the document id. *)

Definition keyLe (a b : Z * string) : Prop :=
  a.1 < b.1 \/ (a.1 = b.1 /\ String.le a.2 b.2).

Global Instance keyLe_dec : RelDecision keyLe.
Proof. intros a b. unfold keyLe. apply _. Defined.

(** [orderBy(field, 'asc')] *)
Definition orderByAsc {A} (key : A -> Z * string) (l : list A) : list A :=
  merge_sort (fun a b => keyLe (key a) (key b)) l.

(** [orderBy(field, 'desc')] *)
Definition orderByDesc {A} (key : A -> Z * string) (l : list A) : list A :=
  merge_sort (fun a b => keyLe (key b) (key a)) l.

(** [limit(n)]: the first [n] documents of the ordered result. *)
Definition limit {A} (n : nat) (l : list A) : list A := take n l.

(** ** ChannelContext *)

Module ChannelContext.

(** The data of a document of the [channels] collection; the [id] of the
    source's [Channel] interface is the document id, the key of the map. *)
Record Channel := mkChannel {
  name : string;
  description : option string;
  isPublic : bool;
  createdBy : string;
  createdAt : Z;
  members : list string;
  admins : list string;
  inviteCode : option string
}.

Record ChannelInput := mkChannelInput {
  in_name : string;
  in_description : option string;
  in_isPublic : bool
}.

(** [Partial<ChannelInput>] *)
Record ChannelUpdates := mkChannelUpdates {
  up_name : option string;
  up_description : option string;
  up_isPublic : option bool
}.

(** The [channels] collection and the provider's [error] state. *)
Record State := mkState {
  channels : gmap string Channel;
  error : option string
}.

Definition setError (e : option string) (s : State) : State :=
  mkState (channels s) e.

Definition setChannels (m : gmap string Channel) (s : State) : State :=
  mkState m (error s).

Definition withMembers (f : list string -> list string) (c : Channel) : Channel :=
  mkChannel (name c) (description c) (isPublic c) (createdBy c) (createdAt c)
    (f (members c)) (admins c) (inviteCode c).

Definition withAdmins (f : list string -> list string) (c : Channel) : Channel :=
  mkChannel (name c) (description c) (isPublic c) (createdBy c) (createdAt c)
    (members c) (f (admins c)) (inviteCode c).

Definition withInviteCode (code : option string) (c : Channel) : Channel :=
  mkChannel (name c) (description c) (isPublic c) (createdBy c) (createdAt c)
    (members c) (admins c) code.

(** [updateDoc(channelRef, updates)] with [updates : Partial<ChannelInput>]:
    the fields present in [updates] overwrite the stored ones. *)
Definition applyUpdates (u : ChannelUpdates) (c : Channel) : Channel :=
  mkChannel (default (name c) (up_name u))
    (match up_description u with Some d => Some d | None => description c end)
    (default (isPublic c) (up_isPublic u))
    (createdBy c) (createdAt c) (members c) (admins c) (inviteCode c).

(** Error messages thrown by the provider. *)
Definition ChannelNotFound : string := "Channel not found".
Definition AlreadyMember : string := "You are already a member of this channel".
Definition CreatorCannotLeave : string := "Channel creator cannot leave the channel".
Definition InvalidCode : string := "Invalid invite code".
Definition WrongChannelType : string :=
  "This is a public channel. Use the regular join channel function.".
Definition CannotRemoveCreator : string := "Cannot remove the channel creator".
Definition CannotDemoteCreator : string := "Cannot demote the channel creator".
Definition NotAMember : string := "User must be a member of the channel first".

(** Documents of a collection in Firestore's default order, by document
    id. *)
Definition docs (m : gmap string Channel) : list (string * Channel) :=
  orderByAsc (fun d => (0, d.1)) (map_to_list m).

(** [query(channelsRef, where('inviteCode', '==', code))] *)
Definition whereInviteCode (code : string) (m : gmap string Channel)
  : list (string * Channel) :=
  filter (fun d => inviteCode d.2 = Some code) (docs m).

Section Operations.
Variable currentUser : option User.

(** [if (!currentUser) throw new Error(msg)], giving the uid. *)
Definition requireUser (msg : string) : M State string :=
  match currentUser with
  | Some u => mret (uid u)
  | None => throw msg
  end.

Definition guarded {A} (body : M State A) : M State A :=
  rethrowing (fun e => setError (Some e)) body.

(** [getDoc] followed by the [exists()] test of the source. *)
Definition getChannelOrThrow (id : string) : M State Channel :=
  fun s =>
    match channels s !! id with
    | Some c => (inr c, s)
    | None => (inl ChannelNotFound, s)
    end.

(** [updateDoc(doc(db, 'channels', id), ...)] *)
Definition updateDoc (id : string) (f : Channel -> Channel) : M State unit :=
  fun s =>
    match channels s !! id with
    | Some c => (inr tt, setChannels (<[id := f c]> (channels s)) s)
    | None => (inl NoDocumentToUpdate, s)
    end.

(** [addDoc(collection(db, 'channels'), data)]; [newId] is the
    auto-generated document id. *)
Definition addDoc (newId : string) (c : Channel) : M State string :=
  fun s => (inr newId, setChannels (<[newId := c]> (channels s)) s).

(** [now] is the clock reading, [newId] the generated document id and
    [uuid] the value of [uuidv4()]. *)
Definition createChannel (now : Z) (newId uuid : string)
    (channelInput : ChannelInput) : M State string :=
  guarded (
    u ← requireUser "You must be logged in to create a channel";
    modify (setError None);;
    addDoc newId
      (mkChannel (in_name channelInput) (in_description channelInput)
         (in_isPublic channelInput) u now [u] [u]
         (if in_isPublic channelInput then None else Some uuid))).

Definition updateChannel (id : string) (updates : ChannelUpdates) : M State unit :=
  guarded (
    u ← requireUser "You must be logged in to update a channel";
    modify (setError None);;
    channelData ← getChannelOrThrow id;
    throwIf (negb (includes (admins channelData) u))
      "Only channel admins can update channel details";;
    updateDoc id (applyUpdates updates)).

Definition deleteChannel (id : string) : M State unit :=
  guarded (
    u ← requireUser "You must be logged in to delete a channel";
    modify (setError None);;
    channelData ← getChannelOrThrow id;
    throwIf (negb (String.eqb (createdBy channelData) u))
      "Only the channel creator can delete the channel";;
    modify (fun s => setChannels (delete id (channels s)) s)).

Definition joinChannel (channelId : string) : M State unit :=
  guarded (
    u ← requireUser "You must be logged in to join a channel";
    modify (setError None);;
    channelData ← getChannelOrThrow channelId;
    throwIf (includes (members channelData) u) AlreadyMember;;
    updateDoc channelId (withMembers (arrayUnion u))).

Definition leaveChannel (channelId : string) : M State unit :=
  guarded (
    u ← requireUser "You must be logged in to leave a channel";
    modify (setError None);;
    channelData ← getChannelOrThrow channelId;
    throwIf (String.eqb (createdBy channelData) u) CreatorCannotLeave;;
    updateDoc channelId
      (fun c => withAdmins (arrayRemove u) (withMembers (arrayRemove u) c))).

Definition joinChannelByInviteCode (code : string) : M State unit :=
  guarded (
    u ← requireUser "You must be logged in to join a channel";
    modify (setError None);;
    querySnapshot ← gets (fun s => whereInviteCode code (channels s));
    match querySnapshot with
    | [] => throw InvalidCode
    | channelDoc :: _ =>
        throwIf (includes (members channelDoc.2) u) AlreadyMember;;
        throwIf (isPublic channelDoc.2) WrongChannelType;;
        updateDoc channelDoc.1 (withMembers (arrayUnion u))
    end).

Definition addMemberToChannel (channelId userId : string) : M State unit :=
  guarded (
    u ← requireUser "You must be logged in to add members";
    modify (setError None);;
    channelData ← getChannelOrThrow channelId;
    throwIf (negb (includes (admins channelData) u))
      "Only channel admins can add members";;
    updateDoc channelId (withMembers (arrayUnion userId))).

Definition removeMemberFromChannel (channelId userId : string) : M State unit :=
  guarded (
    u ← requireUser "You must be logged in to remove members";
    modify (setError None);;
    channelData ← getChannelOrThrow channelId;
    throwIf (negb (includes (admins channelData) u))
      "Only channel admins can remove members";;
    throwIf (String.eqb userId (createdBy channelData)) CannotRemoveCreator;;
    updateDoc channelId
      (fun c => withAdmins (arrayRemove userId) (withMembers (arrayRemove userId) c))).

Definition promoteToAdmin (channelId userId : string) : M State unit :=
  guarded (
    u ← requireUser "You must be logged in to promote members";
    modify (setError None);;
    channelData ← getChannelOrThrow channelId;
    throwIf (negb (String.eqb (createdBy channelData) u))
      "Only the channel creator can promote members to admin";;
    throwIf (negb (includes (members channelData) userId)) NotAMember;;
    updateDoc channelId (withAdmins (arrayUnion userId))).

Definition demoteFromAdmin (channelId userId : string) : M State unit :=
  guarded (
    u ← requireUser "You must be logged in to demote admins";
    modify (setError None);;
    channelData ← getChannelOrThrow channelId;
    throwIf (negb (String.eqb (createdBy channelData) u))
      "Only the channel creator can demote admins";;
    throwIf (String.eqb userId (createdBy channelData)) CannotDemoteCreator;;
    updateDoc channelId (withAdmins (arrayRemove userId))).

Definition generateInviteCode (uuid : string) (channelId : string) : M State string :=
  guarded (
    u ← requireUser "You must be logged in to generate invite codes";
    modify (setError None);;
    channelData ← getChannelOrThrow channelId;
    throwIf (negb (includes (admins channelData) u))
      "Only channel admins can generate invite codes";;
    updateDoc channelId (withInviteCode (Some uuid));;
    mret uuid).

End Operations.

(** The mutation operations of the store, as requests. *)
Inductive Mutation :=
| CreateChannel (now : Z) (newId uuid : string) (channelInput : ChannelInput)
| JoinChannel (channelId : string)
| JoinChannelByInviteCode (code : string)
| LeaveChannel (channelId : string)
| AddMemberToChannel (channelId userId : string)
| RemoveMemberFromChannel (channelId userId : string)
| PromoteToAdmin (channelId userId : string)
| DemoteFromAdmin (channelId userId : string)
| UpdateChannel (id : string) (updates : ChannelUpdates)
| GenerateInviteCode (uuid channelId : string).

Definition discard {A} (m : M State A) : M State unit := _ ← m; mret tt.

Definition perform (currentUser : option User) (m : Mutation) : M State unit :=
  match m with
  | CreateChannel now newId uuid input =>
      discard (createChannel currentUser now newId uuid input)
  | JoinChannel channelId => joinChannel currentUser channelId
  | JoinChannelByInviteCode code => joinChannelByInviteCode currentUser code
  | LeaveChannel channelId => leaveChannel currentUser channelId
  | AddMemberToChannel channelId userId =>
      addMemberToChannel currentUser channelId userId
  | RemoveMemberFromChannel channelId userId =>
      removeMemberFromChannel currentUser channelId userId
  | PromoteToAdmin channelId userId => promoteToAdmin currentUser channelId userId
  | DemoteFromAdmin channelId userId => demoteFromAdmin currentUser channelId userId
  | UpdateChannel id updates => updateChannel currentUser id updates
  | GenerateInviteCode uuid channelId =>
      discard (generateInviteCode currentUser uuid channelId)
  end.

(** A run of the store: each request is issued by the identity signed in
    at that time. *)
Fixpoint performAll (requests : list (option User * Mutation)) (s : State) : State :=
  match requests with
  | [] => s
  | (who, m) :: rest => performAll rest (perform who m s).2
  end.

(** The snapshot listener of [joinedChannelsQuery]:
    [where('members', 'array-contains', currentUser.uid)]. *)
Definition joinedChannelsSnapshot (u : string) (m : gmap string Channel)
  : list (string * Channel) :=
  filter (fun d => u ∈ members d.2) (docs m).

(** [creator ∈ admins] and [admins ⊆ members]. *)
Definition rolesOk (c : Channel) : Prop :=
  createdBy c ∈ admins c /\ admins c ⊆ members c.

(** An invite code is present exactly on a private channel. *)
Definition codeIffPrivate (c : Channel) : Prop :=
  is_Some (inviteCode c) <-> isPublic c = false.

(** The request neither changes a channel's visibility nor sets a code
    on a public channel. *)
Definition respectsVisibility (m : Mutation) (s : State) : Prop :=
  match m with
  | UpdateChannel _ updates => up_isPublic updates = None
  | GenerateInviteCode _ channelId =>
      forall c, channels s !! channelId = Some c -> isPublic c = false
  | _ => True
  end.

(** [getChannelById]: the stored channel with its document id, or [null]
    when there is no such document. *)
Definition getChannelById (currentUser : option User) (channelId : string)
  : M State (option (string * Channel)) :=
  guarded (
    _ ← requireUser currentUser "You must be logged in to view a channel";
    modify (setError None);;
    gets (fun s => (fun c => (channelId, c)) <$> channels s !! channelId)).

(** The snapshot listener of [publicChannelsQuery],
    [where('isPublic', '==', true)], which then filters out the channels
    the identity has joined. *)
Definition publicChannelsSnapshot (u : string) (m : gmap string Channel)
  : list (string * Channel) :=
  List.filter (fun d => negb (includes (members d.2) u))
    (filter (fun d => isPublic d.2 = true) (docs m)).

(** [members] and [admins] list no identity twice. *)
Definition noDuplicates (c : Channel) : Prop :=
  NoDup (members c) /\ NoDup (admins c).

End ChannelContext.

(** ** TaskContext *)

Module TaskContext.

Inductive Priority := low | medium | high.
Inductive TaskType := regular | shopping.
Inductive Privacy := public | private.

Module Status.
Inductive t := not_started | in_progress | completed.
End Status.

Global Instance TaskType_eq_dec : EqDecision TaskType.
Proof. solve_decision. Defined.
Global Instance Privacy_eq_dec : EqDecision Privacy.
Proof. solve_decision. Defined.
Global Instance Status_eq_dec : EqDecision Status.t.
Proof. solve_decision. Defined.

Module ShoppingItem.
Record t := mk {
  id : string;
  name : string;
  completed : bool;
  quantity : option Z
}.
End ShoppingItem.

(** A shopping item as the forms and callers pass it in: [addTask] ignores
    [id] and [completed], [updateTask] reads both. *)
Module ShoppingItemInput.
Record t := mk {
  id : option string;
  name : string;
  completed : bool;
  quantity : option Z
}.
End ShoppingItemInput.

(** A task as the provider holds it; in a collection the document id is
    the key and [id] repeats it.  An optional field that is [None] is a
    property the object does not have, with one exception: the snapshot
    listeners build every task with [dueDate: ... ? ... : undefined], so a
    task in the provider's state without a due date has the own property
    [dueDate] with the value [undefined]. *)
Module Task.
Record t := mk {
  id : string;
  title : string;
  description : option string;
  dueDate : option Z;
  dueTime : option string;
  priority : Priority;
  completed : bool;
  channelId : option string;
  createdBy : string;
  createdAt : Z;
  type : option TaskType;
  status : Status.t;
  shoppingItems : option (list ShoppingItem.t);
  privacy : Privacy
}.
End Task.

Module TaskInput.
Record t := mk {
  title : string;
  description : option string;
  dueDate : option Z;
  dueTime : option string;
  priority : Priority;
  channelId : option string;
  type : option TaskType;
  shoppingItems : option (list ShoppingItemInput.t);
  privacy : option Privacy
}.
End TaskInput.

(** The argument [updates : Partial<TaskInput>] of [updateTask].  The type
    is structural: an object with further own properties is accepted, and
    [{ ...updates }] copies them into the write.  TaskList's
    [handleStatusChange] calls [updateTask(taskId, task)] with a whole
    [Task] whose [status] it has just set, so the properties of [Task]
    outside [TaskInput] are part of the record. ([id], which that call
    passes equal to the document id, is carried by the key.)  Each
    property may be missing, [undefined] or set. *)
Module TaskUpdates.
Record t := mk {
  title : Field.t string;
  description : Field.t string;
  dueDate : Field.t Z;
  dueTime : Field.t string;
  priority : Field.t Priority;
  channelId : Field.t string;
  type : Field.t TaskType;
  shoppingItems : Field.t (list ShoppingItemInput.t);
  privacy : Field.t Privacy;
  completed : Field.t bool;
  status : Field.t Status.t;
  createdBy : Field.t string;
  createdAt : Field.t Z
}.

(** An object with no own property. *)
Definition empty : t :=
  mk Field.absent Field.absent Field.absent Field.absent Field.absent Field.absent
    Field.absent Field.absent Field.absent Field.absent Field.absent Field.absent
    Field.absent.


(** Some own property of the object has the value [undefined]. *)
Definition hasUndefined (u : t) : bool :=
  Field.isUndefined (title u) || Field.isUndefined (description u)
  || Field.isUndefined (dueDate u) || Field.isUndefined (dueTime u)
  || Field.isUndefined (priority u) || Field.isUndefined (channelId u)
  || Field.isUndefined (type u) || Field.isUndefined (shoppingItems u)
  || Field.isUndefined (privacy u) || Field.isUndefined (completed u)
  || Field.isUndefined (status u) || Field.isUndefined (createdBy u)
  || Field.isUndefined (createdAt u).
End TaskUpdates.

(** A document reference: [doc(db, 'tasks', id)] is [(None, id)] and
    [doc(db, `channels/${channelId}/tasks`, id)] is [(Some channelId, id)]. *)
Definition TaskRef : Type := option string * string.

(** [channelId ? doc(db, `channels/${channelId}/tasks`, id) : doc(db, 'tasks', id)] *)
Definition taskRef (channelId : option string) (id : string) : TaskRef :=
  (if truthy channelId then channelId else None, id).

(** The task collections, the provider's [tasks] state and its [error]. *)
Record State := mkState {
  taskDocs : gmap TaskRef Task.t;
  tasks : list Task.t;
  error : option string
}.

Definition setError (e : option string) (s : State) : State :=
  mkState (taskDocs s) (tasks s) e.

Definition setTaskDocs (m : gmap TaskRef Task.t) (s : State) : State :=
  mkState m (tasks s) (error s).

Definition setTasks (f : list Task.t -> list Task.t) (s : State) : State :=
  mkState (taskDocs s) (f (tasks s)) (error s).

Definition TaskOrItemsNotFound : string := "Task or shopping items not found".

(** *** Field writes of [updateDoc] *)

Definition withId (i : string) (t : Task.t) : Task.t :=
  Task.mk i (Task.title t) (Task.description t) (Task.dueDate t) (Task.dueTime t)
    (Task.priority t) (Task.completed t) (Task.channelId t) (Task.createdBy t)
    (Task.createdAt t) (Task.type t) (Task.status t) (Task.shoppingItems t)
    (Task.privacy t).

Definition withChannelId (c : option string) (t : Task.t) : Task.t :=
  Task.mk (Task.id t) (Task.title t) (Task.description t) (Task.dueDate t)
    (Task.dueTime t) (Task.priority t) (Task.completed t) c (Task.createdBy t)
    (Task.createdAt t) (Task.type t) (Task.status t) (Task.shoppingItems t)
    (Task.privacy t).

(** [{ completed, status }] *)
Definition writeCompletion (completed : bool) (status : Status.t) (t : Task.t) : Task.t :=
  Task.mk (Task.id t) (Task.title t) (Task.description t) (Task.dueDate t)
    (Task.dueTime t) (Task.priority t) completed (Task.channelId t) (Task.createdBy t)
    (Task.createdAt t) (Task.type t) status (Task.shoppingItems t) (Task.privacy t).

(** [{ completed, status, shoppingItems }] *)
Definition writeShopping (completed : bool) (status : Status.t)
    (items : list ShoppingItem.t) (t : Task.t) : Task.t :=
  Task.mk (Task.id t) (Task.title t) (Task.description t) (Task.dueDate t)
    (Task.dueTime t) (Task.priority t) completed (Task.channelId t) (Task.createdBy t)
    (Task.createdAt t) (Task.type t) status (Some items) (Task.privacy t).

(** [{ ...item, completed }] *)
Definition setItemCompleted (completed : bool) (item : ShoppingItem.t) : ShoppingItem.t :=
  ShoppingItem.mk (ShoppingItem.id item) (ShoppingItem.name item) completed
    (ShoppingItem.quantity item).

Definition orElse {A} (new : option A) (old : option A) : option A :=
  match new with Some v => Some v | None => old end.

(** [updateDoc(taskRef, updatedData)] on data without an [undefined]:
    every property of [updatedData] overwrites the stored field of that
    name; [items] is the rebuilt [shoppingItems] of [updatedData]. *)
Definition writeUpdates (items : option (list ShoppingItem.t)) (u : TaskUpdates.t)
    (t : Task.t) : Task.t :=
  Task.mk (Task.id t)
    (Field.write (TaskUpdates.title u) (Task.title t))
    (Field.writeOptional (TaskUpdates.description u) (Task.description t))
    (Field.writeOptional (TaskUpdates.dueDate u) (Task.dueDate t))
    (Field.writeOptional (TaskUpdates.dueTime u) (Task.dueTime t))
    (Field.write (TaskUpdates.priority u) (Task.priority t))
    (Field.write (TaskUpdates.completed u) (Task.completed t))
    (Field.writeOptional (TaskUpdates.channelId u) (Task.channelId t))
    (Field.write (TaskUpdates.createdBy u) (Task.createdBy t))
    (Field.write (TaskUpdates.createdAt u) (Task.createdAt t))
    (Field.writeOptional (TaskUpdates.type u) (Task.type t))
    (Field.write (TaskUpdates.status u) (Task.status t))
    (orElse items (Task.shoppingItems t))
    (Field.write (TaskUpdates.privacy u) (Task.privacy t)).


(** *** Status derivation of a shopping list *)

(** [updatedItems.every(item => item.completed)] *)
Definition allCompleted (items : list ShoppingItem.t) : bool :=
  forallb ShoppingItem.completed items.

(** [updatedItems.some(item => item.completed)] *)
Definition anyCompleted (items : list ShoppingItem.t) : bool :=
  existsb ShoppingItem.completed items.

(** [allCompleted ? 'completed' : anyCompleted ? 'in_progress' : 'not_started'] *)
Definition newStatus (items : list ShoppingItem.t) : Status.t :=
  if allCompleted items then Status.completed
  else if anyCompleted items then Status.in_progress
  else Status.not_started.

(** [task.shoppingItems.map(item =>
      item.id === itemId ? { ...item, completed } : item)] *)
Definition toggleItems (itemId : string) (completed : bool)
    (items : list ShoppingItem.t) : list ShoppingItem.t :=
  map (fun item =>
         if String.eqb (ShoppingItem.id item) itemId
         then setItemCompleted completed item else item) items.

(** The status and the completed flag of [t] are derived from [items]:
    completed when every item is, in progress when some but not all are,
    not started when the list has items and none is completed. *)
Definition derivedFrom (items : list ShoppingItem.t) (t : Task.t) : Prop :=
  (Task.status t = Status.completed <->
     forall i, i ∈ items -> ShoppingItem.completed i = true) /\
  (Task.status t = Status.not_started <->
     items <> [] /\ forall i, i ∈ items -> ShoppingItem.completed i = false) /\
  (Task.status t = Status.in_progress <->
     (exists i, i ∈ items /\ ShoppingItem.completed i = true) /\
     (exists i, i ∈ items /\ ShoppingItem.completed i = false)) /\
  Task.completed t = bool_decide (Task.status t = Status.completed).

(** The derivation in the words of the specification: completed iff every
    item is, not started iff no item is, in progress otherwise. *)
Definition derivedAsSpecified (items : list ShoppingItem.t) (t : Task.t) : Prop :=
  (Task.status t = Status.completed <->
     forall i, i ∈ items -> ShoppingItem.completed i = true) /\
  (Task.status t = Status.not_started <->
     forall i, i ∈ items -> ShoppingItem.completed i = false) /\
  (Task.status t = Status.in_progress <->
     ~ (forall i, i ∈ items -> ShoppingItem.completed i = true) /\
     ~ (forall i, i ∈ items -> ShoppingItem.completed i = false)) /\
  Task.completed t = bool_decide (Task.status t = Status.completed).

(** [tasks.find(t => t.id === id)] *)
Definition findTask (id : string) (l : list Task.t) : option Task.t :=
  List.find (fun t => String.eqb (Task.id t) id) l.

Section Operations.
Variable currentUser : option User.

Definition requireUser (msg : string) : M State string :=
  match currentUser with
  | Some u => mret (uid u)
  | None => throw msg
  end.

Definition guarded {A} (body : M State A) : M State A :=
  rethrowing (fun e => setError (Some e)) body.

Definition updateDoc (ref : TaskRef) (f : Task.t -> Task.t) : M State unit :=
  fun s =>
    match taskDocs s !! ref with
    | Some t => (inr tt, setTaskDocs (<[ref := f t]> (taskDocs s)) s)
    | None => (inl NoDocumentToUpdate, s)
    end.

Definition addDoc (ref : TaskRef) (t : Task.t) : M State string :=
  fun s => (inr ref.2, setTaskDocs (<[ref := t]> (taskDocs s)) s).

Definition deleteDoc (ref : TaskRef) : M State unit :=
  modify (fun s => setTaskDocs (delete ref (taskDocs s)) s).

(** [now] is the clock reading, [newId] the generated document id and
    [uuids i] the value of the [i]-th call of [crypto.randomUUID()].
    [taskData] always has the property [shoppingItems]: its value is
    [taskInput.shoppingItems?.map(...)], which is [undefined] for an input
    without a list, and [addDoc] then rejects the data. *)
Definition addTask (now : Z) (newId : string) (uuids : nat -> string)
    (taskInput : TaskInput.t) : M State string :=
  guarded (
    u ← requireUser "You must be logged in to add a task";
    modify (setError None);;
    let shoppingItems :=
      option_map
        (imap (fun i item =>
                 ShoppingItem.mk (uuids i) (ShoppingItemInput.name item) false
                   (ShoppingItemInput.quantity item)))
        (TaskInput.shoppingItems taskInput) in
    let taskData :=
      Task.mk newId (TaskInput.title taskInput) (TaskInput.description taskInput)
        (TaskInput.dueDate taskInput)
        (if truthy (TaskInput.dueTime taskInput)
         then TaskInput.dueTime taskInput else None)
        (TaskInput.priority taskInput) false (TaskInput.channelId taskInput)
        u now
        (Some (default regular (TaskInput.type taskInput)))
        Status.not_started
        shoppingItems
        (default private (TaskInput.privacy taskInput)) in
    throwIf (bool_decide (shoppingItems = None)) UnsupportedFieldValue;;
    addDoc (taskRef (TaskInput.channelId taskInput) newId) taskData).

(** [{ ...item, id: item.id || crypto.randomUUID(),
       completed: item.completed || false }] *)
Definition normalizeItem (uuids : nat -> string) (i : nat)
    (item : ShoppingItemInput.t) : ShoppingItem.t :=
  ShoppingItem.mk
    (if truthy (ShoppingItemInput.id item)
     then default "" (ShoppingItemInput.id item) else uuids i)
    (ShoppingItemInput.name item)
    (ShoppingItemInput.completed item || false)
    (ShoppingItemInput.quantity item).

(** [updatedData] is [{ ...updates }] with a truthy [dueDate] converted
    and a truthy [shoppingItems] rebuilt, so it has an [undefined] property
    exactly when [updates] has one, and [updateDoc] then rejects it before
    it looks for the document. *)
Definition updateTask (uuids : nat -> string) (id : string)
    (updates : TaskUpdates.t) : M State unit :=
  guarded (
    _ ← requireUser "You must be logged in to update a task";
    modify (setError None);;
    let items :=
      option_map (imap (normalizeItem uuids))
        (Field.read (TaskUpdates.shoppingItems updates)) in
    throwIf (TaskUpdates.hasUndefined updates) UnsupportedFieldValue;;
    updateDoc (taskRef (Field.read (TaskUpdates.channelId updates)) id)
      (writeUpdates items updates)).

Definition deleteTask (id : string) (channelId : option string) : M State unit :=
  guarded (
    _ ← requireUser "You must be logged in to delete a task";
    modify (setError None);;
    deleteDoc (taskRef channelId id)).

Definition toggleTaskCompletion (id : string) (completed : bool)
    (channelId : option string) : M State unit :=
  guarded (
    _ ← requireUser "You must be logged in to update a task";
    modify (setError None);;
    task ← gets (fun s => findTask id (tasks s));
    match task with
    | Some t =>
        match Task.type t, Task.shoppingItems t with
        | Some shopping, Some items =>
            updateDoc (taskRef channelId id)
              (writeShopping completed
                 (if completed then Status.completed else Status.not_started)
                 (map (setItemCompleted completed) items))
        | _, _ =>
            updateDoc (taskRef channelId id)
              (writeCompletion completed
                 (if completed then Status.completed
                  else if decide (Task.status t = Status.in_progress)
                       then Status.in_progress else Status.not_started))
        end
    | None =>
        updateDoc (taskRef channelId id)
          (writeCompletion completed
             (if completed then Status.completed else Status.not_started))
    end).

Definition toggleShoppingItem (taskId itemId : string) (completed : bool)
    (channelId : option string) : M State unit :=
  guarded (
    _ ← requireUser "You must be logged in to update a task";
    modify (setError None);;
    task ← gets (fun s => findTask taskId (tasks s));
    match task ≫= Task.shoppingItems with
    | None => throw TaskOrItemsNotFound
    | Some items =>
        let updatedItems := toggleItems itemId completed items in
        updateDoc (taskRef channelId taskId)
          (writeShopping (allCompleted updatedItems) (newStatus updatedItems)
             updatedItems)
    end).

End Operations.

(** *** Snapshot listeners *)

Definition newestFirst (l : list (TaskRef * Task.t)) : list (TaskRef * Task.t) :=
  orderByDesc (fun d => (Task.createdAt d.2, d.1.2)) l.

(** [personalTasksQuery]: the documents of [tasks] created by the identity
    or marked public, newest first.  A document holds every field of
    [Task], so the listener's defaults for a missing [privacy] or [status]
    never apply. *)
Definition personalTasksQuery (u : string) (m : gmap TaskRef Task.t) : list Task.t :=
  map (fun d => withId d.1.2 d.2)
    (newestFirst
       (filter (fun d => d.1.1 = None /\
                         (Task.createdBy d.2 = u \/ Task.privacy d.2 = public))
          (map_to_list m))).

(** The query of one joined channel, newest first; the listener stamps
    the channel's id on each task. *)
Definition channelTasksQuery (channel : string) (m : gmap TaskRef Task.t) : list Task.t :=
  map (fun d => withChannelId (Some channel) (withId d.1.2 d.2))
    (newestFirst (filter (fun d => d.1.1 = Some channel) (map_to_list m))).

(** The listener of the personal query:
    [setTasks(prev => [...personalTasks, ...prev.filter(task => task.channelId)])]. *)
Definition onPersonalSnapshot (u : string) (s : State) : State :=
  setTasks (fun prev =>
              (personalTasksQuery u (taskDocs s)
               ++ List.filter (fun t => truthy (Task.channelId t)) prev)) s.

(** The listener of a joined channel's query. *)
Definition onChannelSnapshot (channel : string) (s : State) : State :=
  setTasks (fun prev =>
              (List.filter (fun t => negb (truthy (Task.channelId t))) prev
               ++ List.filter (fun t => truthy (Task.channelId t)
                                        && negb (bool_decide
                                                   (Task.channelId t = Some channel))) prev
               ++ channelTasksQuery channel (taskDocs s))) s.

(** *** Runs of [toggleShoppingItem]

    One or more successful calls of [toggleShoppingItem] on the task
    [taskId] of the collection selected by [channelId], with snapshot
    deliveries to the provider's [tasks] state in between. *)
Inductive Delivery : State -> State -> Prop :=
| personal_delivery u s : Delivery s (onPersonalSnapshot u s)
| channel_delivery channel s : Delivery s (onChannelSnapshot channel s).

Inductive ToggleRun (currentUser : option User) (taskId : string)
    (channelId : option string) : State -> State -> Prop :=
| toggle_once itemId completed s s' :
    toggleShoppingItem currentUser taskId itemId completed channelId s = (inr tt, s') ->
    ToggleRun currentUser taskId channelId s s'
| toggle_again itemId completed s s' s'' :
    ToggleRun currentUser taskId channelId s s' ->
    toggleShoppingItem currentUser taskId itemId completed channelId s' = (inr tt, s'') ->
    ToggleRun currentUser taskId channelId s s''
| toggle_delivery s s' s'' :
    ToggleRun currentUser taskId channelId s s' ->
    Delivery s' s'' ->
    ToggleRun currentUser taskId channelId s s''.

End TaskContext.

(** ** TaskList: the status menu *)

Module TaskList.
Import TaskContext.




(** [handleShoppingItemClick(e, taskId, itemId, completed)] with the
    store's [toggleShoppingItem] as handler; [shown] is the component's
    [tasks] prop.  The store is called only for an item that the shown task
    lists; a failure of the call is logged and swallowed. *)
Definition handleShoppingItemClick (currentUser : option User) (shown : list Task.t)
    (taskId itemId : string) (completed : bool) (s : State) : State :=
  match findTask taskId shown with
  | None => s
  | Some task =>
      match Task.shoppingItems task with
      | None => s
      | Some items =>
          if existsb (fun item => String.eqb (ShoppingItem.id item) itemId) items
          then (toggleShoppingItem currentUser taskId itemId (negb completed)
                  (Task.channelId task) s).2
          else s
      end
  end.

End TaskList.

(** ** TaskDetailsModal: the shopping list of the open task *)

Module TaskDetailsModal.
Import TaskContext.

(** The updater passed to [setCurrentTask] after a successful store call:
    the item gets the new flag and the local status is 'completed' when
    every item then is, 'in_progress' otherwise (also without a list). *)
Definition localUpdate (itemId : string) (completed : bool) (prevTask : Task.t)
  : Task.t :=
  Task.mk (Task.id prevTask) (Task.title prevTask) (Task.description prevTask)
    (Task.dueDate prevTask) (Task.dueTime prevTask) (Task.priority prevTask)
    (Task.completed prevTask) (Task.channelId prevTask) (Task.createdBy prevTask)
    (Task.createdAt prevTask) (Task.type prevTask)
    (match Task.shoppingItems prevTask with
     | Some items =>
         if forallb (fun item =>
                       if String.eqb (ShoppingItem.id item) itemId
                       then negb completed else ShoppingItem.completed item) items
         then Status.completed else Status.in_progress
     | None => Status.in_progress
     end)
    (option_map
       (map (fun item =>
               if String.eqb (ShoppingItem.id item) itemId
               then setItemCompleted (negb completed) item else item))
       (Task.shoppingItems prevTask))
    (Task.privacy prevTask).

(** [handleShoppingItemToggle(itemId, completed)] of the modal opened on
    [task], with the store's [toggleShoppingItem] as handler; the state is
    the store's and the modal's [currentTask]. *)
Definition handleShoppingItemToggle (currentUser : option User) (task : Task.t)
    (itemId : string) (completed : bool) (st : State * Task.t) : State * Task.t :=
  match toggleShoppingItem currentUser (Task.id task) itemId (negb completed)
          (Task.channelId task) st.1 with
  | (inr _, s') => (s', localUpdate itemId completed st.2)
  | (inl _, s') => (s', st.2)
  end.

End TaskDetailsModal.

(** ** ChatContext *)

Module ChatContext.

Record Message := mkMessage {
  id : string;
  content : string;
  senderId : string;
  senderName : string;
  createdAt : Z;
  channelId : string
}.

(** [doc(db, `channels/${channelId}/messages`, id)] is [(channelId, id)]. *)
Definition MessageRef : Type := string * string.

Record State := mkState {
  messageDocs : gmap MessageRef Message;
  messages : list Message;
  loading : bool;
  error : option string
}.

Definition setError (e : option string) (s : State) : State :=
  mkState (messageDocs s) (messages s) (loading s) e.

Definition setLoading (b : bool) (s : State) : State :=
  mkState (messageDocs s) (messages s) b (error s).

Definition setMessages (l : list Message) (s : State) : State :=
  mkState (messageDocs s) l (loading s) (error s).

Definition setMessageDocs (m : gmap MessageRef Message) (s : State) : State :=
  mkState m (messages s) (loading s) (error s).

Definition withId (i : string) (m : Message) : Message :=
  mkMessage i (content m) (senderId m) (senderName m) (createdAt m) (channelId m).

(** [query(messagesRef, orderBy('createdAt', 'asc'), limit(100))] on the
    messages of the channel, mapped to [Message] values. *)
Definition channelMessagesQuery (channel : string) (m : gmap MessageRef Message)
  : list Message :=
  map (fun d => withId d.1.2 d.2)
    (limit 100
       (orderByAsc (fun d => (createdAt d.2, d.1.2))
          (filter (fun d => d.1.1 = channel) (map_to_list m)))).

(** The messages of a channel in the order of the query, before the
    limit. *)
Definition channelDocs (channel : string) (m : gmap MessageRef Message)
  : list (MessageRef * Message) :=
  orderByAsc (fun d => (createdAt d.2, d.1.2))
    (filter (fun d => d.1.1 = channel) (map_to_list m)).

(** The success callback of [onSnapshot]: the log is replaced by the
    snapshot. *)
Definition onMessagesSnapshot (channel : string) (s : State) : State :=
  setLoading false (setMessages (channelMessagesQuery channel (messageDocs s)) s).

Section Operations.
Variable currentUser : option User.

Definition requireUser (msg : string) : M State User :=
  match currentUser with
  | Some u => mret u
  | None => throw msg
  end.

(** [currentUser.displayName || 'Anonymous'] *)
Definition senderNameOf (u : User) : string :=
  if truthy (displayName u) then default "" (displayName u) else "Anonymous".

Definition sendMessage (now : Z) (newId : string) (channel content : string)
  : M State unit :=
  rethrowing (fun e => setError (Some e)) (
    u ← requireUser "You must be logged in to send messages";
    modify (setError None);;
    modify (fun s =>
              setMessageDocs
                (<[(channel, newId) :=
                     mkMessage newId content (uid u) (senderNameOf u) now channel]>
                   (messageDocs s)) s)).

(** Returns the subscription, here the channel whose query is listened
    to; the listener is [onMessagesSnapshot]. *)
Definition getChannelMessages (channel : string) : M State string :=
  rethrowing (fun e s => setLoading false (setError (Some e) s)) (
    _ ← requireUser "You must be logged in to view messages";
    modify (setError None);;
    modify (setLoading true);;
    mret channel).

End Operations.

End ChatContext.

(** ** DirectMessageContext *)

Module DirectMessageContext.

Record DirectMessage := mkDirectMessage {
  id : string;
  content : string;
  senderId : string;
  receiverId : string;
  senderName : string;
  createdAt : Z
}.

Record State := mkState {
  directMessages : gmap string DirectMessage;
  messages : list DirectMessage;
  loading : bool;
  error : option string
}.

Definition setError (e : option string) (s : State) : State :=
  mkState (directMessages s) (messages s) (loading s) e.

Definition setLoading (b : bool) (s : State) : State :=
  mkState (directMessages s) (messages s) b (error s).

Definition setMessages (l : list DirectMessage) (s : State) : State :=
  mkState (directMessages s) l (loading s) (error s).

Definition setDirectMessages (m : gmap string DirectMessage) (s : State) : State :=
  mkState m (messages s) (loading s) (error s).

Definition withId (i : string) (m : DirectMessage) : DirectMessage :=
  mkDirectMessage i (content m) (senderId m) (receiverId m) (senderName m) (createdAt m).

Definition NotPermittedToSend : string :=
  "You can only message users who are in the same channels as you".
Definition NotPermittedToView : string :=
  "You can only view messages with users who are in the same channels as you".

(** The conversation query of [getMessagesWithUser], oldest first. *)
Definition conversationQuery (me other : string) (m : gmap string DirectMessage)
  : list DirectMessage :=
  map (fun d => withId d.1 d.2)
    (orderByAsc (fun d => (createdAt d.2, d.1))
       (filter (fun d => (senderId d.2 = me \/ receiverId d.2 = me) /\
                         (senderId d.2 = other \/ receiverId d.2 = other))
          (map_to_list m))).

Section Operations.
Variable currentUser : option User.
(** [joinedChannels] of the channel context. *)
Variable joinedChannels : list ChannelContext.Channel.

Definition requireUser (msg : string) : M State User :=
  match currentUser with
  | Some u => mret u
  | None => throw msg
  end.

Definition canMessageUser (userId : string) : bool :=
  match currentUser with
  | None => false
  | Some u =>
      let sharedChannels :=
        List.filter (fun channel =>
                       includes (ChannelContext.members channel) userId
                       && includes (ChannelContext.members channel) (uid u))
          joinedChannels in
      bool_decide (0 < length sharedChannels)%nat
  end.

Definition senderNameOf (u : User) : string :=
  if truthy (displayName u) then default "" (displayName u) else "Anonymous".

Definition sendMessage (now : Z) (newId : string) (receiver content : string)
  : M State unit :=
  rethrowing (fun e => setError (Some e)) (
    u ← requireUser "You must be logged in to send messages";
    throwIf (negb (canMessageUser receiver)) NotPermittedToSend;;
    modify (setError None);;
    modify (fun s =>
              setDirectMessages
                (<[newId :=
                     mkDirectMessage newId content (uid u) receiver
                       (senderNameOf u) now]>
                   (directMessages s)) s)).

(** The promise resolves with the first snapshot of the conversation
    query, which also replaces the log. *)
Definition getMessagesWithUser (userId : string) : M State (list DirectMessage) :=
  rethrowing (fun e s => setLoading false (setError (Some e) s)) (
    u ← requireUser "You must be logged in to view messages";
    throwIf (negb (canMessageUser userId)) NotPermittedToView;;
    modify (setError None);;
    modify (setLoading true);;
    messagesList ← gets (fun s => conversationQuery (uid u) userId (directMessages s));
    modify (setMessages messagesList);;
    modify (setLoading false);;
    mret messagesList).

End Operations.

(** [joinedChannels] as the listener of the channel context delivers it
    to the identity [u]. *)
Definition joinedOf (u : string) (chs : gmap string ChannelContext.Channel)
  : list ChannelContext.Channel :=
  (ChannelContext.joinedChannelsSnapshot u chs).*2.

(** The provider's own listener: every message the identity sent or
    received, oldest first. *)
Definition inboxQuery (me : string) (m : gmap string DirectMessage)
  : list DirectMessage :=
  map (fun d => withId d.1 d.2)
    (orderByAsc (fun d => (createdAt d.2, d.1))
       (filter (fun d => senderId d.2 = me \/ receiverId d.2 = me) (map_to_list m))).

Definition onInboxSnapshot (me : string) (s : State) : State :=
  setLoading false (setMessages (inboxQuery me (directMessages s)) s).

End DirectMessageContext.

(** ** Scenarios *)

Module Examples.

Definition alice : User := mkUser "alice" (Some "Alice").
Definition bob : User := mkUser "bob" None.

Module Channels.
Import ChannelContext.

(** A private channel of alice with invite code K1. *)
Definition team : Channel :=
  mkChannel "team" None false "alice" 1 ["alice"] ["alice"] (Some "K1").

Definition teamStore : State := mkState {["c1" := team]} None.

(** alice creates the public channel "lobby" and then generates an
    invite code for it. *)
Definition lobbyRun : list (option User * Mutation) :=
  [(Some alice, CreateChannel 1 "lobby" "K0" (mkChannelInput "lobby" None true));
   (Some alice, GenerateInviteCode "K9" "lobby")].

Definition lobby : Channel :=
  mkChannel "lobby" None true "alice" 1 ["alice"] ["alice"] (Some "K9").

Definition lobbyStore : State := performAll lobbyRun (mkState ∅ None).
End Channels.

Module Tasks.
Import TaskContext.

Definition uuids (i : nat) : string :=
  match i with
  | O => "item-0"
  | S O => "item-1"
  | _ => "item-n"
  end.

Definition noTasks : State := mkState ∅ [] None.

(** The shopping task of the specification's scenario. *)
Definition groceriesInput : TaskInput.t :=
  TaskInput.mk "groceries" None None None medium None (Some shopping)
    (Some [ShoppingItemInput.mk None "milk" false (Some 2);
           ShoppingItemInput.mk None "eggs" false (Some 12)])
    None.

(** alice adds the task and the personal listener delivers it. *)
Definition groceriesStore : State :=
  onPersonalSnapshot "alice" (addTask (Some alice) 10 "t1" uuids groceriesInput noTasks).2.

(** A shopping task whose list has no item yet. *)
Definition emptyListInput : TaskInput.t :=
  TaskInput.mk "later" None None None low None (Some shopping) (Some []) None.

Definition emptyListStore : State :=
  onPersonalSnapshot "alice" (addTask (Some alice) 11 "t0" uuids emptyListInput noTasks).2.

(** A regular task with a due date as TaskList's form submits it (empty
    description and due time, an empty item list), then started from the
    status menu. *)
Definition choreInput : TaskInput.t :=
  TaskInput.mk "chore" (Some "") (Some 30) (Some "") high None (Some regular)
    (Some []) (Some private).





(** The scenario of the specification: milk is ticked, the listener
    delivers, eggs are ticked. *)
Definition milkDone : State :=
  (toggleShoppingItem (Some alice) "t1" "item-0" true None groceriesStore).2.
Definition milkSeen : State := onPersonalSnapshot "alice" milkDone.
Definition eggsDone : State :=
  (toggleShoppingItem (Some alice) "t1" "item-1" true None milkSeen).2.



(** An input without an item list, as a caller other than the form may
    pass it. *)
Definition noListInput : TaskInput.t :=
  TaskInput.mk "note" None None None low None None None None.

Definition groceryItems : list ShoppingItem.t :=
  [ShoppingItem.mk "item-0" "milk" false (Some 2);
   ShoppingItem.mk "item-1" "eggs" false (Some 12)].

Definition groceries : Task.t :=
  Task.mk "t1" "groceries" None None None medium false None "alice" 10
    (Some shopping) Status.not_started (Some groceryItems) private.
End Tasks.

Module Chat.
Import ChatContext.

Definition quiet : State := mkState ∅ [] false None.

(** alice sends [n] messages to channel "c1", one per clock tick; the
    [k]-th gets the document id "m" followed by [k]. *)
Fixpoint chatter (n : nat) : State :=
  match n with
  | O => quiet
  | S k => (sendMessage (Some alice) (Z.of_nat k) ("m" +:+ pretty k) "c1" "hello"
              (chatter k)).2
  end.

Definition busyChannel : State := chatter 101.
End Chat.

Module DirectMessages.
Import DirectMessageContext Channels.

Definition noMessages : State := mkState ∅ [] true None.
Definition carol : User := mkUser "carol" (Some "").
(** A channel store where alice and bob share "c2". *)
Definition sharedChannels : gmap string ChannelContext.Channel :=
  {[ "c1" := team;
     "c2" := ChannelContext.mkChannel "pair" None true "bob" 2 ["bob"; "alice"] ["bob"] None ]}.
End DirectMessages.

End Examples.

(** * Properties *)

(** ** Arrays, ordered queries and provider computations *)

Lemma includes_true l x : includes l x = true <-> x ∈ l.
Proof. unfold includes. apply bool_decide_eq_true. Qed.

Lemma includes_false l x : includes l x = false <-> x ∉ l.
Proof. unfold includes. apply bool_decide_eq_false. Qed.

Lemma elem_of_arrayUnion x y l : y ∈ arrayUnion x l <-> y = x \/ y ∈ l.
Proof.
  unfold arrayUnion. destruct (includes l x) eqn:E.
  - apply includes_true in E. split; [auto | intros [->|]; auto].
  - rewrite elem_of_app, list_elem_of_singleton. tauto.
Qed.

Lemma elem_of_arrayRemove x y l : y ∈ arrayRemove x l <-> y ≠ x /\ y ∈ l.
Proof. unfold arrayRemove. by rewrite list_elem_of_filter. Qed.

Global Instance keyLe_total : Total keyLe.
Proof.
  intros [a i] [b j]. unfold keyLe. simpl.
  destruct (Z.lt_trichotomy a b) as [?|[->|?]]; [auto| |auto].
  destruct (total String.le i j); auto.
Qed.

Global Instance keyLe_trans : Transitive keyLe.
Proof.
  intros [a i] [b j] [c k]. unfold keyLe. simpl.
  intros [?|[-> ?]] [?|[-> ?]]; [left; lia|left; lia|left; lia|right].
  split; [done|]. by trans j.
Qed.

Section OrderedQueries.
Context {A : Type} (key : A -> Z * string).

Let asc (a b : A) : Prop := keyLe (key a) (key b).
Let desc (a b : A) : Prop := keyLe (key b) (key a).

Local Instance asc_total : Total asc.
Proof. intros a b. apply (total keyLe). Qed.
Local Instance asc_trans : Transitive asc.
Proof. intros a b c. apply (transitivity (R := keyLe)). Qed.
Local Instance desc_total : Total desc.
Proof. intros a b. apply (total keyLe). Qed.
Local Instance desc_trans : Transitive desc.
Proof. intros a b c ? ?. by apply (transitivity (R := keyLe)) with (key b). Qed.

Lemma orderByAsc_Permutation l : orderByAsc key l ≡ₚ l.
Proof. apply merge_sort_Permutation. Qed.

Lemma orderByDesc_Permutation l : orderByDesc key l ≡ₚ l.
Proof. apply merge_sort_Permutation. Qed.

Lemma orderByAsc_sorted l :
  StronglySorted (fun a b => keyLe (key a) (key b)) (orderByAsc key l).
Proof. apply (StronglySorted_merge_sort asc). Qed.

Lemma orderByDesc_sorted l :
  StronglySorted (fun a b => keyLe (key b) (key a)) (orderByDesc key l).
Proof. apply (StronglySorted_merge_sort desc). Qed.
End OrderedQueries.

Lemma StronglySorted_filter {A} (R : relation A) (P : A -> Prop)
    `{forall x, Decision (P x)} (l : list A) :
  StronglySorted R l -> StronglySorted R (filter P l).
Proof.
  induction 1 as [|x l Hl IH Hx]; [constructor|].
  rewrite filter_cons. destruct (decide (P x)); [|done].
  constructor; [done|].
  rewrite Forall_forall in *. intros y Hy.
  apply list_elem_of_filter in Hy as [_ Hy]. auto.
Qed.

(** Turns boolean tests of the source into propositions. *)
Ltac bool_facts :=
  repeat match goal with
         | H : negb _ = true |- _ => apply negb_true_iff in H
         | H : negb _ = false |- _ => apply negb_false_iff in H
         | H : String.eqb _ _ = true |- _ => apply String.eqb_eq in H
         | H : String.eqb _ _ = false |- _ => apply String.eqb_neq in H
         | H : includes _ _ = true |- _ => apply includes_true in H
         | H : includes _ _ = false |- _ => apply includes_false in H
         end.

(** Merges two readings of the same expression. *)
Ltac same_reads :=
  repeat match goal with
         | H1 : ?x = _, H2 : ?x = _ |- _ => rewrite H1 in H2; simplify_eq
         end.

Ltac negb_facts :=
  repeat match goal with
         | H : negb _ = true |- _ => apply negb_true_iff in H
         | H : negb _ = false |- _ => apply negb_false_iff in H
         end.

Ltac unfold_provider :=
  unfold rethrowing, throwIf, throw, modify, gets, failsWith, succeeded,
    mbind, M_bind, mret, M_ret in *.

(** ** Channel store *)

Module ChannelContextFacts.
Import ChannelContext Examples Examples.Channels.

Ltac run_op :=
  unfold perform, discard, createChannel, updateChannel, deleteChannel, joinChannel,
    leaveChannel, joinChannelByInviteCode, addMemberToChannel,
    removeMemberFromChannel, promoteToAdmin, demoteFromAdmin, generateInviteCode,
    guarded, requireUser, getChannelOrThrow, updateDoc, addDoc, setError,
    setChannels in *;
  unfold_provider;
  simpl in *;
  repeat (case_match; simpl in *; simplify_eq; negb_facts; same_reads;
          try congruence);
  simpl in *; same_reads; try done.

Ltac lookup_cases H :=
  apply lookup_insert_Some in H as [[? ?]|[? ?]]; simplify_eq.

Lemma elem_of_docs m id c : (id, c) ∈ docs m <-> m !! id = Some c.
Proof. unfold docs. rewrite orderByAsc_Permutation. apply elem_of_map_to_list. Qed.

Lemma elem_of_whereInviteCode code m id c :
  (id, c) ∈ whereInviteCode code m <-> m !! id = Some c /\ inviteCode c = Some code.
Proof.
  unfold whereInviteCode. rewrite list_elem_of_filter, elem_of_docs. simpl. tauto.
Qed.

Lemma whereInviteCode_nil code m :
  whereInviteCode code m = [] <->
  forall id c, m !! id = Some c -> inviteCode c <> Some code.
Proof.
  split.
  - intros E id c Hl Hc.
    assert (H : (id, c) ∈ whereInviteCode code m) by (by apply elem_of_whereInviteCode).
    rewrite E in H. by apply not_elem_of_nil in H.
  - intros H. destruct (whereInviteCode code m) as [|[id c] rest] eqn:E; [done|].
    assert (Hin : (id, c) ∈ whereInviteCode code m) by (rewrite E; left).
    apply elem_of_whereInviteCode in Hin as [Hl Hc]. by destruct (H id c Hl).
Qed.

(** [querySnapshot.docs[0]] is a channel holding the code, the one of
    least document id. *)
Lemma whereInviteCode_head code m id c rest :
  whereInviteCode code m = (id, c) :: rest ->
  m !! id = Some c /\ inviteCode c = Some code /\
  forall id' c', m !! id' = Some c' -> inviteCode c' = Some code -> String.le id id'.
Proof.
  intros E.
  assert (Hin : (id, c) ∈ whereInviteCode code m) by (rewrite E; left).
  apply elem_of_whereInviteCode in Hin as [Hl Hc]. split; [done|split; [done|]].
  intros id' c' Hl' Hc'.
  assert (Hin' : (id', c') ∈ whereInviteCode code m)
    by (by apply elem_of_whereInviteCode).
  assert (HS : StronglySorted (fun a b : string * Channel => keyLe (0, a.1) (0, b.1))
                 (whereInviteCode code m)).
  { unfold whereInviteCode, docs. apply StronglySorted_filter.
    apply (orderByAsc_sorted (fun d : string * Channel => (0, d.1))). }
  rewrite E in HS, Hin'. apply StronglySorted_inv in HS as [_ HF].
  apply elem_of_cons in Hin' as [Heq|Hin'].
  - injection Heq as -> ->. done.
  - rewrite Forall_forall in HF. destruct (HF _ Hin') as [?|[_ ?]]; simpl in *; [lia|done].
Qed.

(** When a single channel holds the code, it is the one the query finds. *)
Lemma whereInviteCode_unique code m id c :
  m !! id = Some c -> inviteCode c = Some code ->
  (forall id' c', id' <> id -> m !! id' = Some c' -> inviteCode c' <> Some code) ->
  exists rest, whereInviteCode code m = (id, c) :: rest.
Proof.
  intros Hl Hc Hother.
  destruct (whereInviteCode code m) as [|[id0 c0] rest] eqn:E.
  - by destruct (proj1 (whereInviteCode_nil _ _) E id c Hl).
  - destruct (whereInviteCode_head _ _ _ _ _ E) as (Hl0 & Hc0 & _).
    destruct (decide (id0 = id)) as [->|Hne].
    + simplify_eq. eauto.
    + by destruct (Hother id0 c0 Hne Hl0).
Qed.

Lemma rolesOk_join u c : rolesOk c -> rolesOk (withMembers (arrayUnion u) c).
Proof.
  intros [H1 H2]. split; simpl; [done|].
  intros x Hx. apply elem_of_arrayUnion. right. by apply H2.
Qed.

Lemma rolesOk_remove u c :
  u <> createdBy c -> rolesOk c ->
  rolesOk (withAdmins (arrayRemove u) (withMembers (arrayRemove u) c)).
Proof.
  intros Hne [H1 H2]. split; simpl.
  - apply elem_of_arrayRemove. split; [congruence|done].
  - intros x Hx. apply elem_of_arrayRemove in Hx as [? ?].
    apply elem_of_arrayRemove. split; [done|by apply H2].
Qed.

Lemma rolesOk_promote u c :
  u ∈ members c -> rolesOk c -> rolesOk (withAdmins (arrayUnion u) c).
Proof.
  intros Hu [H1 H2]. split; simpl.
  - apply elem_of_arrayUnion. by right.
  - intros x Hx. apply elem_of_arrayUnion in Hx as [->|Hx]; [done|by apply H2].
Qed.

Lemma rolesOk_demote u c :
  u <> createdBy c -> rolesOk c -> rolesOk (withAdmins (arrayRemove u) c).
Proof.
  intros Hne [H1 H2]. split; simpl.
  - apply elem_of_arrayRemove. split; [congruence|done].
  - intros x Hx. apply elem_of_arrayRemove in Hx as [? ?]. by apply H2.
Qed.

Lemma rolesOk_applyUpdates up c : rolesOk c -> rolesOk (applyUpdates up c).
Proof. by intros [H1 H2]. Qed.

Lemma rolesOk_withInviteCode code c : rolesOk c -> rolesOk (withInviteCode code c).
Proof. by intros [H1 H2]. Qed.

(** C1. Every mutation operation of the channel store, whether it
    succeeds or fails, keeps [creator ∈ admins] and [admins ⊆ members] on
    every channel that had it, and a channel it creates has it. *)
Theorem rolesOk_preserved currentUser m s id c' :
  channels (perform currentUser m s).2 !! id = Some c' ->
  match channels s !! id with
  | Some c => rolesOk c -> rolesOk c'
  | None => rolesOk c'
  end.
Proof.
  intros H. destruct m; run_op.
  all: try (rewrite H; done).
  all: try lookup_cases H.
  all: try match goal with E : channels _ !! _ = _ |- _ => rewrite E end.
  all: try done.
  all: bool_facts.
  all: try (split; simpl; [apply list_elem_of_singleton; done | done]).
  all: eauto using rolesOk_join, rolesOk_remove, rolesOk_promote, rolesOk_demote,
         rolesOk_applyUpdates, rolesOk_withInviteCode.
Qed.

Lemma rolesOk_preserved_witness :
  rolesOk (withMembers (arrayUnion "bob") team).
Proof.
  refine (rolesOk_preserved (Some bob) (JoinChannel "c1") teamStore "c1" _ _ _).
  - vm_compute. reflexivity.
  - split; simpl.
    + apply list_elem_of_here.
    + intros x Hx. exact Hx.
Defined.

(** C8. On an existing channel [joinChannel] fails with AlreadyMember
    when the caller is in [members]; otherwise it succeeds and appends the
    caller to [members], whatever the channel's visibility flag. *)
Theorem joinChannel_outcomes (me : User) channelId s c :
  channels s !! channelId = Some c ->
  let r := joinChannel (Some me) channelId s in
  (uid me ∈ members c -> failsWith AlreadyMember r /\ channels r.2 = channels s) /\
  (uid me ∉ members c ->
     r.1 = inr tt /\
     exists c', channels r.2 = <[channelId := c']> (channels s) /\
                members c' = members c ++ [uid me] /\
                admins c' = admins c /\ isPublic c' = isPublic c).
Proof.
  intros Hc r. subst r. split; intros Hu.
  - apply includes_true in Hu. run_op.
  - apply includes_false in Hu. run_op. split; [done|].
    eexists. split; [done|]. simpl. unfold arrayUnion. by rewrite Hu.
Qed.

Lemma joinChannel_outcomes_witness :
  failsWith AlreadyMember (joinChannel (Some alice) "c1" teamStore) /\
  (joinChannel (Some bob) "c1" teamStore).1 = inr tt.
Proof.
  pose proof (joinChannel_outcomes alice "c1" teamStore team eq_refl) as [Ha _].
  pose proof (joinChannel_outcomes bob "c1" teamStore team eq_refl) as [_ Hb].
  split.
  - apply Ha. apply list_elem_of_here.
  - apply Hb. vm_compute. intros H. by apply list_elem_of_singleton in H.
Defined.

Lemma joinByCode_none (me : User) code s :
  whereInviteCode code (channels s) = [] ->
  joinChannelByInviteCode (Some me) code s = (inl InvalidCode, setError (Some InvalidCode) s).
Proof. intros E. run_op. Qed.

Lemma joinByCode_head (me : User) code s id c rest :
  whereInviteCode code (channels s) = (id, c) :: rest ->
  joinChannelByInviteCode (Some me) code s =
    if includes (members c) (uid me)
    then (inl AlreadyMember, setError (Some AlreadyMember) s)
    else if isPublic c
         then (inl WrongChannelType, setError (Some WrongChannelType) s)
         else (inr tt,
               mkState (<[id := withMembers (arrayUnion (uid me)) c]> (channels s)) None).
Proof.
  intros E. destruct (whereInviteCode_head _ _ _ _ _ E) as (Hl & _ & _). run_op.
Qed.

Lemma generateInviteCode_run (admin : User) uuid cid c s :
  channels s !! cid = Some c ->
  uid admin ∈ admins c ->
  generateInviteCode (Some admin) uuid cid s =
    (inr uuid, mkState (<[cid := withInviteCode (Some uuid) c]> (channels s)) None).
Proof. intros Hl Ha. apply includes_true in Ha. run_op. Qed.

(** C5. [joinChannelByInviteCode] makes its checks in the order in which
    the specification lists them: it fails with InvalidCode when no
    channel holds the code; on the matched channel it fails with
    AlreadyMember when the caller is a member, then with WrongChannelType
    when the channel is public, and otherwise succeeds and adds the caller
    to its members; every failure leaves the collection unchanged. *)
Theorem joinChannelByInviteCode_outcomes (me : User) code s :
  let r := joinChannelByInviteCode (Some me) code s in
  ((forall id c, channels s !! id = Some c -> inviteCode c <> Some code) ->
     failsWith InvalidCode r) /\
  (forall id c rest, whereInviteCode code (channels s) = (id, c) :: rest ->
     (uid me ∈ members c -> failsWith AlreadyMember r) /\
     (uid me ∉ members c -> isPublic c = true -> failsWith WrongChannelType r) /\
     (uid me ∉ members c -> isPublic c = false ->
        r.1 = inr tt /\
        channels r.2 = <[id := withMembers (arrayUnion (uid me)) c]> (channels s) /\
        uid me ∈ members (withMembers (arrayUnion (uid me)) c))) /\
  (forall e, r.1 = inl e -> channels r.2 = channels s).
Proof.
  intros r. subst r. split; [|split].
  - intros Hnone. apply whereInviteCode_nil in Hnone.
    by rewrite (joinByCode_none _ _ _ Hnone).
  - intros id c rest E. rewrite (joinByCode_head _ _ _ _ _ _ E).
    split; [|split].
    + intros Hu. apply includes_true in Hu. by rewrite Hu.
    + intros Hu Hp. apply includes_false in Hu. by rewrite Hu, Hp.
    + intros Hu Hp. apply includes_false in Hu. rewrite Hu, Hp.
      split; [done|split; [done|]]. apply elem_of_arrayUnion. by left.
  - intros e He. run_op.
Qed.

Lemma joinChannelByInviteCode_outcomes_witness :
  failsWith InvalidCode (joinChannelByInviteCode (Some bob) "nope" teamStore) /\
  failsWith AlreadyMember (joinChannelByInviteCode (Some alice) "K1" teamStore) /\
  failsWith WrongChannelType (joinChannelByInviteCode (Some bob) "K9" lobbyStore) /\
  (joinChannelByInviteCode (Some bob) "K1" teamStore).1 = inr tt.
Proof.
  destruct (joinChannelByInviteCode_outcomes bob "nope" teamStore) as (H1 & _ & _).
  destruct (joinChannelByInviteCode_outcomes alice "K1" teamStore) as (_ & H2 & _).
  destruct (joinChannelByInviteCode_outcomes bob "K9" lobbyStore) as (_ & H3 & _).
  destruct (joinChannelByInviteCode_outcomes bob "K1" teamStore) as (_ & H4 & _).
  specialize (H2 "c1" team [] eq_refl) as (H2 & _ & _).
  specialize (H3 "lobby" lobby [] eq_refl) as (_ & H3 & _).
  specialize (H4 "c1" team [] eq_refl) as (_ & _ & H4).
  split; [|split; [|split]].
  - apply H1. apply whereInviteCode_nil. reflexivity.
  - apply H2. apply list_elem_of_here.
  - apply H3; [|reflexivity]. vm_compute. intros H. by apply list_elem_of_singleton in H.
  - apply H4; [|reflexivity]. vm_compute. intros H. by apply list_elem_of_singleton in H.
Defined.

(** C3, as stated, fails: after [lobbyRun] the public channel "lobby"
    holds an invite code. *)
Lemma public_channel_with_code_counterexample :
  channels lobbyStore !! "lobby" = Some lobby /\
  isPublic lobby = true /\ inviteCode lobby = Some "K9" /\
  ~ codeIffPrivate lobby.
Proof.
  repeat split; try reflexivity.
  intros [H _]. by specialize (H (ltac:(by eexists))).
Qed.

Lemma codeIffPrivate_members f c : codeIffPrivate c -> codeIffPrivate (withMembers f c).
Proof. done. Qed.
Lemma codeIffPrivate_admins f c : codeIffPrivate c -> codeIffPrivate (withAdmins f c).
Proof. done. Qed.

(** C3, amended. [createChannel] gives a code exactly to a private
    channel, and every mutation that neither changes the visibility flag
    nor generates a code on a public channel keeps "code iff private";
    [generateInviteCode], run by any admin, overwrites the stored code;
    and on a private channel, after regenerating from K1 to K2 (distinct,
    neither held by another channel), joining with K1 fails with
    InvalidCode while a non-member joins with K2. *)
Theorem inviteCode_discipline :
  (forall (me : User) now newId uuid input s,
      exists c, channels (createChannel (Some me) now newId uuid input s).2 !! newId = Some c
                /\ codeIffPrivate c) /\
  (forall currentUser m s id c',
      respectsVisibility m s ->
      channels (perform currentUser m s).2 !! id = Some c' ->
      match channels s !! id with
      | Some c => codeIffPrivate c -> codeIffPrivate c'
      | None => codeIffPrivate c'
      end) /\
  (forall (admin : User) uuid cid c s,
      channels s !! cid = Some c ->
      uid admin ∈ admins c ->
      let r := generateInviteCode (Some admin) uuid cid s in
      r.1 = inr uuid /\
      channels r.2 = <[cid := withInviteCode (Some uuid) c]> (channels s)) /\
  (forall (admin joiner : User) cid c K1 K2 s,
      channels s !! cid = Some c ->
      uid admin ∈ admins c ->
      isPublic c = false ->
      uid joiner ∉ members c ->
      K1 <> K2 ->
      (forall id' c', id' <> cid -> channels s !! id' = Some c' ->
                      inviteCode c' <> Some K1 /\ inviteCode c' <> Some K2) ->
      let s1 := (generateInviteCode (Some admin) K1 cid s).2 in
      let s2 := (generateInviteCode (Some admin) K2 cid s1).2 in
      failsWith InvalidCode (joinChannelByInviteCode (Some joiner) K1 s2) /\
      (joinChannelByInviteCode (Some joiner) K2 s2).1 = inr tt /\
      exists c', channels (joinChannelByInviteCode (Some joiner) K2 s2).2 !! cid = Some c'
                 /\ uid joiner ∈ members c').
Proof.
  split; [|split; [|split]].
  - intros. run_op; rewrite lookup_insert_eq; eexists; (split; [done|]);
      unfold codeIffPrivate; simpl; split; try done; intros [? ?]; done.
  - intros currentUser m s id c' Hv H. destruct m; run_op.
    all: try (rewrite H; done).
    all: try lookup_cases H.
    all: try match goal with E : channels _ !! _ = _ |- _ => rewrite E end.
    all: try done.
    all: try (unfold codeIffPrivate; simpl; split; try done; intros [? ?]; done).
    + unfold codeIffPrivate, applyUpdates. simpl. by rewrite Hv.
    + intros _. unfold codeIffPrivate. simpl. split; [intros _; eauto|by eexists].
  - intros admin uuid cid c s Hl Ha r. subst r.
    by rewrite (generateInviteCode_run _ _ _ _ _ Hl Ha).
  - intros admin joiner cid c K1 K2 s Hl Ha Hp Hj Hne Hother s1 s2.
    subst s1 s2.
    rewrite (generateInviteCode_run _ K1 _ _ _ Hl Ha). simpl.
    rewrite (generateInviteCode_run admin K2 cid (withInviteCode (Some K1) c));
      [|simpl; by rewrite lookup_insert_eq|done].
    simpl. rewrite insert_insert_eq.
    set (c2 := withInviteCode (Some K2) (withInviteCode (Some K1) c)).
    set (s2 := mkState (<[cid:=c2]> (channels s)) None).
    assert (Hnone : whereInviteCode K1 (channels s2) = []).
    { apply whereInviteCode_nil. intros id c0 Hl0. simpl in Hl0.
      lookup_cases Hl0; simpl; [congruence|].
      by destruct (Hother id c0). }
    destruct (whereInviteCode_unique K2 (channels s2) cid c2) as [rest E].
    { simpl. by rewrite lookup_insert_eq. }
    { done. }
    { intros id' c0 Hne' Hl0. simpl in Hl0. rewrite lookup_insert_ne in Hl0 by done.
      by destruct (Hother id' c0). }
    rewrite (joinByCode_none _ _ _ Hnone), (joinByCode_head _ _ _ _ _ _ E).
    apply includes_false in Hj. simpl. rewrite Hj, Hp. simpl.
    split; [done|split; [done|]].
    rewrite lookup_insert_eq. eexists. split; [done|]. simpl.
    apply elem_of_arrayUnion. by left.
Qed.

Lemma inviteCode_discipline_witness :
  codeIffPrivate (withMembers (arrayUnion "bob") team) /\
  (generateInviteCode (Some alice) "K2" "c1" teamStore).1 = inr "K2" /\
  let s1 := (generateInviteCode (Some alice) "K1" "c1" teamStore).2 in
  let s2 := (generateInviteCode (Some alice) "K2" "c1" s1).2 in
  failsWith InvalidCode (joinChannelByInviteCode (Some bob) "K1" s2) /\
  (joinChannelByInviteCode (Some bob) "K2" s2).1 = inr tt.
Proof.
  destruct inviteCode_discipline as (_ & Hkeep & Hgen & Hregen).
  split; [|split].
  - refine (Hkeep (Some bob) (JoinChannel "c1") teamStore "c1" _ I _ _).
    + vm_compute. reflexivity.
    + split; [reflexivity|]. intros _. by eexists.
  - refine (proj1 (Hgen alice "K2" "c1" team teamStore eq_refl _)).
    apply list_elem_of_here.
  - destruct (Hregen alice bob "c1" team "K1" "K2" teamStore) as (H1 & H2 & _).
    + reflexivity.
    + apply list_elem_of_here.
    + reflexivity.
    + vm_compute. intros H. by apply list_elem_of_singleton in H.
    + discriminate.
    + intros id' c' Hne Hl. unfold teamStore in Hl. simpl in Hl.
      rewrite lookup_singleton_ne in Hl by done. discriminate Hl.
    + split; [exact H1|exact H2].
Defined.

End ChannelContextFacts.

(** ** Task store *)

Module TaskContextFacts.
Import TaskContext Examples Examples.Tasks.

Ltac run_op :=
  unfold addTask, updateTask, deleteTask, toggleTaskCompletion, toggleShoppingItem,
    guarded, requireUser, updateDoc, addDoc, deleteDoc, setError, setTaskDocs in *;
  unfold_provider;
  simpl in *;
  repeat (case_match; simpl in *; simplify_eq; negb_facts; same_reads;
          try congruence);
  simpl in *; same_reads; try done.

Lemma allCompleted_true items :
  allCompleted items = true <-> forall i, i ∈ items -> ShoppingItem.completed i = true.
Proof.
  unfold allCompleted. rewrite forallb_forall.
  split; intros H i Hi; apply H; by apply list_elem_of_In.
Qed.

Lemma anyCompleted_true items :
  anyCompleted items = true <-> exists i, i ∈ items /\ ShoppingItem.completed i = true.
Proof.
  unfold anyCompleted. rewrite existsb_exists.
  split; intros (i & Hi & Hc); exists i; (split; [by apply list_elem_of_In|done]).
Qed.

Lemma allCompleted_false items :
  allCompleted items = false <-> exists i, i ∈ items /\ ShoppingItem.completed i = false.
Proof.
  unfold allCompleted. induction items as [|x l IH]; simpl.
  - split; [done|]. intros (i & Hi & _). by apply not_elem_of_nil in Hi.
  - rewrite andb_false_iff, IH. split.
    + intros [Hx|(i & Hi & Hc)]; [exists x|exists i]; split; auto; [left|by right].
    + intros (i & Hi & Hc). apply elem_of_cons in Hi as [->|Hi]; [by left|right; eauto].
Qed.

Lemma anyCompleted_false items :
  anyCompleted items = false <-> forall i, i ∈ items -> ShoppingItem.completed i = false.
Proof.
  unfold anyCompleted. induction items as [|x l IH]; simpl.
  - split; [|done]. intros _ i Hi. by apply not_elem_of_nil in Hi.
  - rewrite orb_false_iff, IH. split.
    + intros [Hx Hl] i Hi. apply elem_of_cons in Hi as [->|Hi]; auto.
    + intros H. split; [apply H; left|intros i Hi; apply H; by right].
Qed.

(** What the source's ternary computes, in terms of the items. *)
Lemma newStatus_derived items doc :
  derivedFrom items (writeShopping (allCompleted items) (newStatus items) items doc).
Proof.
  unfold derivedFrom, newStatus. simpl.
  destruct (allCompleted items) eqn:Ha; [|destruct (anyCompleted items) eqn:Hb].
  - pose proof (proj1 (allCompleted_true _) Ha) as Hall.
    split; [done|]. split; [|split; [|done]].
    + split; [done|]. intros [Hne Hnone]. destruct items as [|x l]; [done|].
      specialize (Hall x ltac:(left)). specialize (Hnone x ltac:(left)). congruence.
    + split; [done|]. intros [_ (i & Hi & Hc)]. specialize (Hall i Hi). congruence.
  - pose proof (proj1 (allCompleted_false _) Ha) as Hsome.
    pose proof (proj1 (anyCompleted_true _) Hb) as Hany.
    split; [|split; [|split; [|done]]].
    + split; [done|]. intros Hall. apply allCompleted_true in Hall. congruence.
    + split; [done|]. intros [_ Hnone]. apply anyCompleted_false in Hnone. congruence.
    + done.
  - pose proof (proj1 (allCompleted_false _) Ha) as Hsome.
    pose proof (proj1 (anyCompleted_false _) Hb) as Hnone.
    split; [|split; [|split; [|done]]].
    + split; [done|]. intros Hall. apply allCompleted_true in Hall. congruence.
    + split; [|done]. intros _. split; [|done].
      destruct Hsome as (i & Hi & _). intros ->. by apply not_elem_of_nil in Hi.
    + split; [done|]. intros [(i & Hi & Hc) _]. specialize (Hnone i Hi). congruence.
Qed.

(** A successful call has found the task and its list in the provider's
    state and has rewritten the stored document from that list. *)
Lemma toggleShoppingItem_success currentUser taskId itemId completed channelId s s' :
  toggleShoppingItem currentUser taskId itemId completed channelId s = (inr tt, s') ->
  exists task items doc,
    findTask taskId (tasks s) = Some task /\
    Task.shoppingItems task = Some items /\
    taskDocs s !! taskRef channelId taskId = Some doc /\
    let updatedItems := toggleItems itemId completed items in
    s' = mkState
           (<[taskRef channelId taskId :=
                writeShopping (allCompleted updatedItems) (newStatus updatedItems)
                  updatedItems doc]> (taskDocs s))
           (tasks s) None.
Proof.
  intros H. run_op.
  match goal with
  | H : option_bind _ _ _ (findTask ?i ?l) = Some _ |- _ =>
      destruct (findTask i l) as [task|] eqn:Hf; simpl in H; [|done]
  end.
  eexists task, _, _. split; [done|]. split; [done|]. split; [done|]. done.
Qed.

(** C2, amended. After one or more successful [toggleShoppingItem] calls
    on a task, the stored status is completed iff every item is
    completed, not started iff the list has items and none is completed,
    in progress iff some but not all are, and the completed flag says
    whether the status is completed. *)
Theorem toggleShoppingItem_status_derived currentUser taskId channelId s s' :
  ToggleRun currentUser taskId channelId s s' ->
  exists t items,
    taskDocs s' !! taskRef channelId taskId = Some t /\
    Task.shoppingItems t = Some items /\
    derivedFrom items t.
Proof.
  induction 1 as [itemId completed s s' H|itemId completed s s' s'' _ _ H|s s' s'' _ IH HD].
  1,2: apply toggleShoppingItem_success in H as (task & items & doc & _ & _ & _ & ->);
       simpl; rewrite lookup_insert_eq; eexists _, _; split; [done|]; split; [done|];
       apply newStatus_derived.
  destruct HD; exact IH.
Qed.

Lemma toggleShoppingItem_status_derived_witness :
  exists t items,
    taskDocs eggsDone !! taskRef None "t1" = Some t /\
    Task.shoppingItems t = Some items /\
    derivedFrom items t.
Proof.
  apply (toggleShoppingItem_status_derived (Some alice) "t1" None groceriesStore).
  eapply toggle_again with (itemId := "item-1") (completed := true) (s' := milkSeen).
  - eapply toggle_delivery with (s' := milkDone).
    + eapply toggle_once with (itemId := "item-0") (completed := true).
      vm_compute. reflexivity.
    + apply personal_delivery.
  - vm_compute. reflexivity.
Defined.

Lemma toggleItems_lookup itemId completed items k item :
  items !! k = Some item ->
  exists item', toggleItems itemId completed items !! k = Some item' /\
    ShoppingItem.id item' = ShoppingItem.id item /\
    ShoppingItem.name item' = ShoppingItem.name item /\
    ShoppingItem.quantity item' = ShoppingItem.quantity item /\
    ShoppingItem.completed item' =
      if String.eqb (ShoppingItem.id item) itemId then completed
      else ShoppingItem.completed item.
Proof.
  intros Hk. unfold toggleItems. eexists. rewrite list_lookup_fmap, Hk. simpl.
  split; [done|]. by destruct (String.eqb (ShoppingItem.id item) itemId).
Qed.

Lemma toggleItems_absent itemId completed items :
  (forall i, i ∈ items -> ShoppingItem.id i <> itemId) ->
  toggleItems itemId completed items = items.
Proof.
  unfold toggleItems. induction items as [|x l IH]; [done|]. intros H. simpl.
  rewrite IH by (intros i Hi; apply H; by right).
  destruct (String.eqb (ShoppingItem.id x) itemId) eqn:E; [|done].
  apply String.eqb_eq in E. by destruct (H x ltac:(left)).
Qed.

(** C6, amended. [toggleShoppingItem] fails with "Task or shopping items
    not found" when the provider holds no task of that id or the task has
    no item list.  When it has a list and the document exists the call
    succeeds: the items with id [itemId] get the flag, all else in the
    list is kept (nothing changes when no item has that id), and status
    and completed are derived from the whole updated list. *)
Theorem toggleShoppingItem_outcomes (me : User) taskId itemId completed channelId s :
  let r := toggleShoppingItem (Some me) taskId itemId completed channelId s in
  (findTask taskId (tasks s) ≫= Task.shoppingItems = None ->
     failsWith TaskOrItemsNotFound r /\ taskDocs r.2 = taskDocs s) /\
  (forall task items doc,
     findTask taskId (tasks s) = Some task ->
     Task.shoppingItems task = Some items ->
     taskDocs s !! taskRef channelId taskId = Some doc ->
     exists doc' items',
       r.1 = inr tt /\
       taskDocs r.2 = <[taskRef channelId taskId := doc']> (taskDocs s) /\
       Task.shoppingItems doc' = Some items' /\
       length items' = length items /\
       (forall k item, items !! k = Some item ->
          exists item', items' !! k = Some item' /\
            ShoppingItem.id item' = ShoppingItem.id item /\
            ShoppingItem.name item' = ShoppingItem.name item /\
            ShoppingItem.quantity item' = ShoppingItem.quantity item /\
            ShoppingItem.completed item' =
              if String.eqb (ShoppingItem.id item) itemId then completed
              else ShoppingItem.completed item) /\
       ((forall i, i ∈ items -> ShoppingItem.id i <> itemId) -> items' = items) /\
       derivedFrom items' doc').
Proof.
  intros r. subst r. split.
  - intros Hnone. run_op.
  - intros task items doc Hf Hi Hd. run_op.
    all: match goal with H : option_bind _ _ _ _ = _ |- _ =>
           rewrite Hf in H; simpl in H; rewrite Hi in H; simplify_eq end.
    eexists _, _. split; [done|]. split; [done|]. split; [done|].
    split; [unfold toggleItems; by rewrite length_map|].
    split; [intros k item; apply toggleItems_lookup|].
    split; [apply toggleItems_absent|apply newStatus_derived].
Qed.

(** C2, as stated, fails: a call on the task whose list is empty
    succeeds and stores status completed, although no item is completed. *)
Lemma empty_list_counterexample :
  let r := toggleShoppingItem (Some alice) "t0" "item-0" true None emptyListStore in
  r.1 = inr tt /\
  (Task.shoppingItems <$> taskDocs r.2 !! taskRef None "t0") = Some (Some []) /\
  (Task.status <$> taskDocs r.2 !! taskRef None "t0") = Some Status.completed /\
  forall t, taskDocs r.2 !! taskRef None "t0" = Some t -> ~ derivedAsSpecified [] t.
Proof.
  split; [vm_compute; reflexivity|]. split; [vm_compute; reflexivity|].
  split; [vm_compute; reflexivity|].
  intros t Ht (_ & [_ H] & _). vm_compute in Ht. injection Ht as <-.
  simpl in H. discriminate H. intros i Hi. by apply not_elem_of_nil in Hi.
Qed.

(** C6, as stated, fails: no item of the task has id "nope", yet the call
    succeeds. *)
Lemma missing_item_counterexample :
  let r := toggleShoppingItem (Some alice) "t1" "nope" true None groceriesStore in
  (forall task items,
      findTask "t1" (tasks groceriesStore) = Some task ->
      Task.shoppingItems task = Some items ->
      forall i, i ∈ items -> ShoppingItem.id i <> "nope") /\
  r.1 = inr tt /\ ~ (exists e, r.1 = inl e).
Proof.
  split; [|split; [vm_compute; reflexivity|]].
  - intros task items Hf Hi i Hin. vm_compute in Hf. injection Hf as <-.
    simpl in Hi. injection Hi as <-.
    repeat (apply elem_of_cons in Hin as [->|Hin]; [done|]).
    by apply not_elem_of_nil in Hin.
  - intros [e He]. vm_compute in He. discriminate He.
Qed.

Lemma toggleShoppingItem_outcomes_witness :
  failsWith TaskOrItemsNotFound
    (toggleShoppingItem (Some alice) "t2" "item-0" true None groceriesStore) /\
  (toggleShoppingItem (Some alice) "t1" "item-0" true None groceriesStore).1 = inr tt.
Proof.
  split.
  - refine (proj1 (proj1 (toggleShoppingItem_outcomes alice "t2" "item-0" true None
                            groceriesStore) _)).
    vm_compute. reflexivity.
  - destruct (proj2 (toggleShoppingItem_outcomes alice "t1" "item-0" true None
                       groceriesStore) groceries groceryItems groceries)
      as (doc' & items' & H & _).
    + vm_compute. reflexivity.
    + reflexivity.
    + vm_compute. reflexivity.
    + exact H.
Defined.




(** *** Undefined properties *)





Lemma updateTask_rejects (me : User) uuids id updates s :
  TaskUpdates.hasUndefined updates = true ->
  updateTask (Some me) uuids id updates s =
    (inl UnsupportedFieldValue,
     mkState (taskDocs s) (tasks s) (Some UnsupportedFieldValue)).
Proof. intros Hu. run_op. Qed.




End TaskContextFacts.

(** ** Channel chat *)

Module ChatContextFacts.
Import ChatContext Examples Examples.Chat.

(** C7 at a channel with 101 messages: the log holds 100 of them, from
    the oldest (sent at 0) to the one sent at 99; the newest, sent at
    100, is left out. *)
Lemma channel_log_drops_newest :
  let log := messages (onMessagesSnapshot "c1" busyChannel) in
  size (messageDocs busyChannel) = 101%nat /\
  (createdAt <$> messageDocs busyChannel !! ("c1", "m100")) = Some 100 /\
  length log = 100%nat /\
  (createdAt <$> head log) = Some 0 /\
  (createdAt <$> last log) = Some 99 /\
  bool_decide ("m100" ∈ map id log) = false.
Proof. vm_compute. repeat split; reflexivity. Qed.
End ChatContextFacts.

(** ** Direct messages *)

Module DirectMessageContextFacts.
Import DirectMessageContext Examples Examples.Channels Examples.DirectMessages.
Import ChannelContextFacts.

Ltac run_op :=
  unfold sendMessage, getMessagesWithUser, requireUser, setError, setLoading,
    setMessages, setDirectMessages in *;
  unfold_provider;
  simpl in *;
  repeat (case_match; simpl in *; simplify_eq; negb_facts; same_reads;
          try congruence);
  simpl in *; same_reads; try done.

Lemma canMessageUser_true (me : User) joined userId :
  canMessageUser (Some me) joined userId = true <->
  exists c, c ∈ joined /\ userId ∈ ChannelContext.members c
            /\ uid me ∈ ChannelContext.members c.
Proof.
  unfold canMessageUser. rewrite bool_decide_eq_true. split.
  - intros Hlen.
    destruct (List.filter _ joined) as [|c rest] eqn:E; [simpl in Hlen; lia|].
    assert (Hin : In c (List.filter
              (fun channel => includes (ChannelContext.members channel) userId
                              && includes (ChannelContext.members channel) (uid me))
              joined)) by (rewrite E; left; done).
    apply filter_In in Hin as [Hin Hb]. apply andb_true_iff in Hb as [H1 H2].
    exists c. split; [by apply list_elem_of_In|].
    split; by apply includes_true.
  - intros (c & Hin & H1 & H2).
    assert (Hf : In c (List.filter
              (fun channel => includes (ChannelContext.members channel) userId
                              && includes (ChannelContext.members channel) (uid me))
              joined)).
    { apply filter_In. split; [by apply list_elem_of_In|].
      apply andb_true_iff. split; by apply includes_true. }
    destruct (List.filter _ joined); [done|simpl; lia].
Qed.

Lemma elem_of_joinedOf u chs c :
  c ∈ joinedOf u chs <-> exists id, chs !! id = Some c /\ u ∈ ChannelContext.members c.
Proof.
  unfold joinedOf, ChannelContext.joinedChannelsSnapshot.
  rewrite list_elem_of_fmap. split.
  - intros ([id c'] & -> & Hin). apply list_elem_of_filter in Hin as [Hu Hin].
    apply elem_of_docs in Hin. eauto.
  - intros (id & Hl & Hu). exists (id, c). split; [done|].
    apply list_elem_of_filter. split; [done|]. by apply elem_of_docs.
Qed.

Lemma canMessageUser_shared (a : User) b chs :
  canMessageUser (Some a) (joinedOf (uid a) chs) b = true <->
  exists id c, chs !! id = Some c /\ uid a ∈ ChannelContext.members c
               /\ b ∈ ChannelContext.members c.
Proof.
  rewrite canMessageUser_true. split.
  - intros (c & Hin & Hb & Ha). apply elem_of_joinedOf in Hin as (id & Hl & _). eauto.
  - intros (id & c & Hl & Ha & Hb). exists c. split; [|done].
    apply elem_of_joinedOf. eauto.
Qed.

(** C9. With [joinedChannels] as delivered to each identity,
    [canMessageUser] gives the same answer for (a, b) and (b, a), and it
    is true exactly when some channel has both among its members; direct
    [sendMessage] and [getMessagesWithUser] fail when it is false. *)
Theorem canMessageUser_symmetric (a b : User) (chs : gmap string ChannelContext.Channel) :
  canMessageUser (Some a) (joinedOf (uid a) chs) (uid b)
    = canMessageUser (Some b) (joinedOf (uid b) chs) (uid a) /\
  (canMessageUser (Some a) (joinedOf (uid a) chs) (uid b) = true <->
     exists id c, chs !! id = Some c /\ uid a ∈ ChannelContext.members c
                  /\ uid b ∈ ChannelContext.members c) /\
  (forall joined now newId content s,
      canMessageUser (Some a) joined (uid b) = false ->
      let r := sendMessage (Some a) joined now newId (uid b) content s in
      failsWith NotPermittedToSend r /\ directMessages r.2 = directMessages s) /\
  (forall joined s,
      canMessageUser (Some a) joined (uid b) = false ->
      let r := getMessagesWithUser (Some a) joined (uid b) s in
      failsWith NotPermittedToView r /\ messages r.2 = messages s).
Proof.
  split; [|split; [apply canMessageUser_shared|split]].
  - apply eq_true_iff_eq. rewrite !canMessageUser_shared.
    split; intros (id & c & Hl & H1 & H2); eauto.
  - intros joined now newId content s Hno r. subst r. run_op.
  - intros joined s Hno r. subst r. run_op.
Qed.

Lemma canMessageUser_symmetric_witness :
  failsWith NotPermittedToSend
    (sendMessage (Some alice) (joinedOf "alice" sharedChannels) 5 "d1" "carol" "hi"
       noMessages) /\
  failsWith NotPermittedToView
    (getMessagesWithUser (Some alice) (joinedOf "alice" sharedChannels) "carol" noMessages).
Proof.
  destruct (canMessageUser_symmetric alice carol sharedChannels) as (_ & _ & Hs & Hv).
  split.
  - apply (Hs (joinedOf "alice" sharedChannels) 5 "d1" "hi" noMessages).
    vm_compute. reflexivity.
  - apply (Hv (joinedOf "alice" sharedChannels) noMessages). vm_compute. reflexivity.
Defined.
End DirectMessageContextFacts.

(** ** Channel store: further laws *)

Module ChannelContextLaws.
Import ChannelContext Examples Examples.Channels ChannelContextFacts.

Lemma arrayRemove_absent x l : x ∉ l -> arrayRemove x l = l.
Proof.
  unfold arrayRemove. induction l as [|y l IH]; [done|]. intros Hx.
  rewrite filter_cons. destruct (decide (y ≠ x)) as [Hne|Heq].
  - f_equal. apply IH. intros ?. apply Hx. by right.
  - destruct Hx. apply dec_stable in Heq. subst. left.
Qed.

Lemma arrayRemove_arrayUnion x l : x ∉ l -> arrayRemove x (arrayUnion x l) = l.
Proof.
  intros Hx. unfold arrayUnion. rewrite (proj2 (includes_false l x) Hx).
  unfold arrayRemove. rewrite filter_app. fold (arrayRemove x l).
  rewrite arrayRemove_absent by done. rewrite filter_cons.
  destruct (decide (x ≠ x)); [done|]. by rewrite filter_nil, app_nil_r.
Qed.

Lemma withMembers_id c : withMembers (fun l => l) c = c.
Proof. by destruct c. Qed.

(** [leaveChannel] by the creator fails with CreatorCannotLeave and changes
    nothing; any other caller leaves: the caller is then in neither
    [members] nor [admins], every other identity keeps its roles, and a
    caller who was in neither list leaves the document as it was. *)
Theorem leaveChannel_outcomes (me : User) channelId s c :
  channels s !! channelId = Some c ->
  let r := leaveChannel (Some me) channelId s in
  (createdBy c = uid me ->
     failsWith CreatorCannotLeave r /\ channels r.2 = channels s) /\
  (createdBy c <> uid me ->
     r.1 = inr tt /\
     exists c', channels r.2 = <[channelId := c']> (channels s) /\
       (uid me ∉ members c') /\ (uid me ∉ admins c') /\
       createdBy c' = createdBy c /\
       (forall x, x <> uid me ->
          ((x ∈ members c') <-> (x ∈ members c)) /\ ((x ∈ admins c') <-> (x ∈ admins c))) /\
       (uid me ∉ members c -> uid me ∉ admins c -> c' = c)).
Proof.
  intros Hc r. subst r. split; intros Hu.
  - apply String.eqb_eq in Hu. run_op.
  - apply String.eqb_neq in Hu. run_op. split; [done|].
    eexists. split; [done|]. simpl.
    split; [rewrite elem_of_arrayRemove; by intros [? _]|].
    split; [rewrite elem_of_arrayRemove; by intros [? _]|].
    split; [done|]. split.
    + intros x Hx. rewrite !elem_of_arrayRemove. tauto.
    + intros Hm Ha. unfold withAdmins, withMembers. simpl.
      rewrite !arrayRemove_absent by done.
      match goal with |- _ = ?c0 => by destruct c0 end.
Qed.

Lemma leaveChannel_outcomes_witness :
  failsWith CreatorCannotLeave (leaveChannel (Some alice) "c1" teamStore) /\
  (leaveChannel (Some bob) "c1" teamStore).1 = inr tt.
Proof.
  split.
  - refine (proj1 (proj1 (leaveChannel_outcomes alice "c1" teamStore team eq_refl) _)).
    reflexivity.
  - refine (proj1 (proj2 (leaveChannel_outcomes bob "c1" teamStore team eq_refl) _)).
    discriminate.
Defined.

(** [deleteChannel] fails with "Channel not found" on a missing channel
    and with the creator-only error for anyone but the creator, changing
    nothing; the creator's call removes that document and no other. *)
Theorem deleteChannel_outcomes (me : User) id s :
  let r := deleteChannel (Some me) id s in
  (channels s !! id = None ->
     failsWith ChannelNotFound r /\ channels r.2 = channels s) /\
  (forall c, channels s !! id = Some c ->
     (createdBy c <> uid me ->
        failsWith "Only the channel creator can delete the channel" r /\
        channels r.2 = channels s) /\
     (createdBy c = uid me ->
        r.1 = inr tt /\ channels r.2 !! id = None /\
        forall id', id' <> id -> channels r.2 !! id' = channels s !! id')).
Proof.
  intros r. subst r. split.
  - intros Hn. run_op.
  - intros c Hc. split; intros Hu.
    + apply String.eqb_neq in Hu. run_op.
    + apply String.eqb_eq in Hu. run_op.
      split; [done|]. split; [by rewrite lookup_delete_eq|].
      intros id' Hne. by rewrite lookup_delete_ne.
Qed.

Lemma deleteChannel_outcomes_witness :
  failsWith ChannelNotFound (deleteChannel (Some alice) "nope" teamStore) /\
  failsWith "Only the channel creator can delete the channel"
    (deleteChannel (Some bob) "c1" teamStore) /\
  (deleteChannel (Some alice) "c1" teamStore).1 = inr tt.
Proof.
  split; [|split].
  - refine (proj1 (proj1 (deleteChannel_outcomes alice "nope" teamStore) _)).
    reflexivity.
  - refine (proj1 (proj1 (proj2 (deleteChannel_outcomes bob "c1" teamStore) team eq_refl) _)).
    discriminate.
  - refine (proj1 (proj2 (proj2 (deleteChannel_outcomes alice "c1" teamStore) team eq_refl) _)).
    reflexivity.
Defined.

(** [removeMemberFromChannel] is refused to a caller who is not an admin
    and refuses to remove the creator; otherwise the target is in neither
    [members] nor [admins] afterwards and every other identity keeps its
    roles. *)
Theorem removeMemberFromChannel_outcomes (me : User) channelId userId s c :
  channels s !! channelId = Some c ->
  let r := removeMemberFromChannel (Some me) channelId userId s in
  (uid me ∉ admins c ->
     failsWith "Only channel admins can remove members" r /\
     channels r.2 = channels s) /\
  (uid me ∈ admins c -> userId = createdBy c ->
     failsWith CannotRemoveCreator r /\ channels r.2 = channels s) /\
  (uid me ∈ admins c -> userId <> createdBy c ->
     r.1 = inr tt /\
     exists c', channels r.2 = <[channelId := c']> (channels s) /\
       (userId ∉ members c') /\ (userId ∉ admins c') /\
       forall x, x <> userId ->
         ((x ∈ members c') <-> (x ∈ members c)) /\ ((x ∈ admins c') <-> (x ∈ admins c))).
Proof.
  intros Hc r. subst r. split; [|split].
  - intros Ha. apply includes_false in Ha. run_op.
  - intros Ha Hu. apply includes_true in Ha. apply String.eqb_eq in Hu. run_op.
  - intros Ha Hu. apply includes_true in Ha. apply String.eqb_neq in Hu. run_op.
    split; [done|]. eexists. split; [done|]. simpl.
    split; [rewrite elem_of_arrayRemove; by intros [? _]|].
    split; [rewrite elem_of_arrayRemove; by intros [? _]|].
    intros x Hx. rewrite !elem_of_arrayRemove. tauto.
Qed.

Lemma removeMemberFromChannel_outcomes_witness :
  failsWith "Only channel admins can remove members"
    (removeMemberFromChannel (Some bob) "c1" "alice" teamStore) /\
  failsWith CannotRemoveCreator
    (removeMemberFromChannel (Some alice) "c1" "alice" teamStore) /\
  (removeMemberFromChannel (Some alice) "c1" "bob" teamStore).1 = inr tt.
Proof.
  pose proof (removeMemberFromChannel_outcomes bob "c1" "alice" teamStore team eq_refl)
    as (H1 & _ & _).
  pose proof (removeMemberFromChannel_outcomes alice "c1" "alice" teamStore team eq_refl)
    as (_ & H2 & _).
  pose proof (removeMemberFromChannel_outcomes alice "c1" "bob" teamStore team eq_refl)
    as (_ & _ & H3).
  split; [|split].
  - apply H1. simpl. intros H. by apply list_elem_of_singleton in H.
  - apply H2; [apply list_elem_of_here|reflexivity].
  - apply H3; [apply list_elem_of_here|discriminate].
Defined.

(** Successful runs, as equations. *)
Lemma promoteToAdmin_run (creator : User) channelId userId s c :
  channels s !! channelId = Some c -> createdBy c = uid creator -> userId ∈ members c ->
  promoteToAdmin (Some creator) channelId userId s
  = (inr tt, mkState (<[channelId := withAdmins (arrayUnion userId) c]> (channels s)) None).
Proof.
  intros Hc Hcr Hm. apply String.eqb_eq in Hcr. apply includes_true in Hm. run_op.
Qed.

Lemma demoteFromAdmin_run (creator : User) channelId userId s c :
  channels s !! channelId = Some c -> createdBy c = uid creator -> userId <> createdBy c ->
  demoteFromAdmin (Some creator) channelId userId s
  = (inr tt, mkState (<[channelId := withAdmins (arrayRemove userId) c]> (channels s)) None).
Proof.
  intros Hc Hcr Hne. apply String.eqb_eq in Hcr. apply String.eqb_neq in Hne. run_op.
Qed.

Lemma joinChannel_run (me : User) channelId s c :
  channels s !! channelId = Some c -> uid me ∉ members c ->
  joinChannel (Some me) channelId s
  = (inr tt, mkState (<[channelId := withMembers (arrayUnion (uid me)) c]> (channels s)) None).
Proof. intros Hc Hm. apply includes_false in Hm. run_op. Qed.

Lemma leaveChannel_run (me : User) channelId s c :
  channels s !! channelId = Some c -> createdBy c <> uid me ->
  leaveChannel (Some me) channelId s
  = (inr tt,
     mkState (<[channelId := withAdmins (arrayRemove (uid me))
                               (withMembers (arrayRemove (uid me)) c)]> (channels s)) None).
Proof. intros Hc Hne. apply String.eqb_neq in Hne. run_op. Qed.

Lemma updateChannel_run (admin : User) id updates s c :
  channels s !! id = Some c -> uid admin ∈ admins c ->
  updateChannel (Some admin) id updates s
  = (inr tt, mkState (<[id := applyUpdates updates c]> (channels s)) None).
Proof. intros Hc Ha. apply includes_true in Ha. run_op. Qed.

(** Promoting a member who is not an admin and then demoting them brings
    the channel collection back to what it was. *)
Theorem promote_demote_roundtrip (creator : User) channelId userId s c :
  channels s !! channelId = Some c ->
  createdBy c = uid creator ->
  userId ∈ members c ->
  userId ∉ admins c ->
  userId <> createdBy c ->
  let r1 := promoteToAdmin (Some creator) channelId userId s in
  let r2 := demoteFromAdmin (Some creator) channelId userId r1.2 in
  r1.1 = inr tt /\
  (exists c1, channels r1.2 !! channelId = Some c1 /\ userId ∈ admins c1) /\
  r2.1 = inr tt /\
  channels r2.2 = channels s.
Proof.
  intros Hc Hcr Hm Ha Hne r1 r2. subst r1 r2.
  rewrite (promoteToAdmin_run _ _ _ _ _ Hc Hcr Hm). simpl.
  split; [done|]. split.
  { eexists. rewrite lookup_insert_eq. split; [done|]. simpl.
    apply elem_of_arrayUnion. by left. }
  rewrite (demoteFromAdmin_run creator channelId userId _
             (withAdmins (arrayUnion userId) c));
    [|simpl; by rewrite lookup_insert_eq|done|done].
  simpl. split; [done|]. rewrite insert_insert_eq.
  unfold withAdmins. simpl. rewrite arrayRemove_arrayUnion by done.
  apply insert_id. rewrite Hc. by destruct c.
Qed.

Lemma promote_demote_roundtrip_witness :
  let c := withMembers (arrayUnion "bob") team in
  let s := mkState {["c1" := c]} None in
  channels (demoteFromAdmin (Some alice) "c1" "bob"
              (promoteToAdmin (Some alice) "c1" "bob" s).2).2 = channels s.
Proof.
  intros c s.
  refine (proj2 (proj2 (proj2 (promote_demote_roundtrip alice "c1" "bob" s c
                                 eq_refl eq_refl _ _ _)))).
  - vm_compute. apply list_elem_of_further, list_elem_of_here.
  - vm_compute. intros H. by apply list_elem_of_singleton in H.
  - discriminate.
Defined.

(** A non-member who joins a channel and then leaves it brings the
    channel collection back to what it was. *)
Theorem join_leave_roundtrip (me : User) channelId s c :
  channels s !! channelId = Some c ->
  uid me ∉ members c ->
  uid me ∉ admins c ->
  createdBy c <> uid me ->
  let r1 := joinChannel (Some me) channelId s in
  let r2 := leaveChannel (Some me) channelId r1.2 in
  r1.1 = inr tt /\ r2.1 = inr tt /\ channels r2.2 = channels s.
Proof.
  intros Hc Hm Ha Hne r1 r2. subst r1 r2.
  rewrite (joinChannel_run _ _ _ _ Hc Hm). simpl. split; [done|].
  rewrite (leaveChannel_run me channelId _ (withMembers (arrayUnion (uid me)) c));
    [|simpl; by rewrite lookup_insert_eq|done].
  simpl. split; [done|]. rewrite insert_insert_eq.
  unfold withAdmins, withMembers. simpl.
  rewrite arrayRemove_arrayUnion, arrayRemove_absent by done.
  apply insert_id. rewrite Hc. by destruct c.
Qed.

Lemma join_leave_roundtrip_witness :
  channels (leaveChannel (Some bob) "c1" (joinChannel (Some bob) "c1" teamStore).2).2
  = channels teamStore.
Proof.
  refine (proj2 (proj2 (join_leave_roundtrip bob "c1" teamStore team eq_refl _ _ _))).
  - vm_compute. intros H. by apply list_elem_of_singleton in H.
  - vm_compute. intros H. by apply list_elem_of_singleton in H.
  - discriminate.
Defined.

(** A mutation that throws leaves the channel collection as it was and
    records the message in [error]; one that succeeds leaves [error]
    cleared.  With no signed-in identity every mutation throws. *)
Theorem failure_leaves_channels (currentUser : option User) m s :
  let r := perform currentUser m s in
  match r.1 with
  | inl e => channels r.2 = channels s /\ error r.2 = Some e
  | inr _ => error r.2 = None
  end /\
  exists e, (perform None m s).1 = inl e.
Proof.
  intros r. subst r. split.
  - destruct m; run_op.
  - destruct m; run_op; eauto.
Qed.

Lemma NoDup_arrayUnion x l : NoDup l -> NoDup (arrayUnion x l).
Proof.
  intros Hl. unfold arrayUnion. destruct (includes l x) eqn:E; [done|].
  apply includes_false in E. apply NoDup_app. split; [done|].
  split; [|apply NoDup_singleton].
  intros y Hy Hy'. apply list_elem_of_singleton in Hy'. by subst.
Qed.

Lemma NoDup_arrayRemove x l : NoDup l -> NoDup (arrayRemove x l).
Proof. apply NoDup_filter. Qed.

(** Every mutation keeps [members] and [admins] free of duplicates, and a
    created channel has none. *)
Theorem noDuplicates_preserved currentUser m s id c' :
  channels (perform currentUser m s).2 !! id = Some c' ->
  match channels s !! id with
  | Some c => noDuplicates c -> noDuplicates c'
  | None => noDuplicates c'
  end.
Proof.
  intros H. destruct m; run_op.
  all: try (rewrite H; done).
  all: try lookup_cases H.
  all: try match goal with E : channels _ !! _ = _ |- _ => rewrite E end.
  all: try done.
  all: try (split; simpl; apply NoDup_singleton).
  all: intros [Hm Ha]; split; simpl;
    auto using NoDup_arrayUnion, NoDup_arrayRemove.
Qed.

Lemma noDuplicates_preserved_witness :
  noDuplicates (withMembers (arrayUnion "bob") team).
Proof.
  refine (noDuplicates_preserved (Some bob) (JoinChannel "c1") teamStore "c1" _ _ _).
  - vm_compute. reflexivity.
  - split; apply NoDup_singleton.
Defined.

(** Making a private channel public keeps its invite code but disables
    it: a non-member's [joinChannelByInviteCode] with that code fails with
    WrongChannelType, while [joinChannel] by id succeeds. *)
Theorem going_public_disables_code (admin joiner : User) id code s c :
  channels s !! id = Some c ->
  uid admin ∈ admins c ->
  inviteCode c = Some code ->
  uid joiner ∉ members c ->
  (forall id' c', id' <> id -> channels s !! id' = Some c' -> inviteCode c' <> Some code) ->
  let s1 := (updateChannel (Some admin) id (mkChannelUpdates None None (Some true)) s).2 in
  (exists c1, channels s1 !! id = Some c1 /\ isPublic c1 = true /\
              inviteCode c1 = Some code /\ members c1 = members c) /\
  failsWith WrongChannelType (joinChannelByInviteCode (Some joiner) code s1) /\
  (joinChannel (Some joiner) id s1).1 = inr tt.
Proof.
  intros Hc Ha Hcode Hj Hother s1. subst s1.
  rewrite (updateChannel_run _ _ _ _ _ Hc Ha). simpl.
  set (c1 := applyUpdates (mkChannelUpdates None None (Some true)) c).
  split; [exists c1; by rewrite lookup_insert_eq|].
  split.
  - destruct (whereInviteCode_unique code (<[id:=c1]> (channels s)) id c1) as [rest E].
    { by rewrite lookup_insert_eq. }
    { done. }
    { intros id' c0 Hne Hl. rewrite lookup_insert_ne in Hl by done. by apply (Hother id'). }
    unfold failsWith.
    rewrite (joinByCode_head joiner code (mkState (<[id:=c1]> (channels s)) None) id c1 rest E).
    simpl. by rewrite (proj2 (includes_false _ _) Hj).
  - rewrite (joinChannel_run joiner id _ c1); [done| |done].
    simpl. by rewrite lookup_insert_eq.
Qed.

Lemma going_public_disables_code_witness :
  let s1 := (updateChannel (Some alice) "c1" (mkChannelUpdates None None (Some true))
               teamStore).2 in
  failsWith WrongChannelType (joinChannelByInviteCode (Some bob) "K1" s1) /\
  (joinChannel (Some bob) "c1" s1).1 = inr tt.
Proof.
  refine (proj2 (going_public_disables_code alice bob "c1" "K1" teamStore team
                   eq_refl _ eq_refl _ _)).
  - apply list_elem_of_here.
  - vm_compute. intros H. by apply list_elem_of_singleton in H.
  - intros id' c' Hne Hl. unfold teamStore in Hl. simpl in Hl.
    rewrite lookup_singleton_ne in Hl by done. discriminate Hl.
Defined.

Lemma NoDup_fst_List_filter {A B} (f : A * B -> bool) (l : list (A * B)) :
  NoDup l.*1 -> NoDup (List.filter f l).*1.
Proof.
  induction l as [|x l IH]; [done|]. simpl. intros Hn.
  apply NoDup_cons in Hn as [Hx Hl]. destruct (f x); [|auto].
  simpl. apply NoDup_cons. split; [|auto].
  intros Hin. apply Hx. apply list_elem_of_fmap in Hin as (y & -> & Hy).
  apply list_elem_of_fmap. exists y. split; [done|].
  apply list_elem_of_In in Hy. apply filter_In in Hy as [Hy _]. by apply list_elem_of_In.
Qed.

Lemma NoDup_fst_filter {A B} (P : A * B -> Prop) `{forall x, Decision (P x)}
    (l : list (A * B)) :
  NoDup l.*1 -> NoDup (filter P l).*1.
Proof.
  induction l as [|x l IH]; [done|]. simpl. intros Hn.
  apply NoDup_cons in Hn as [Hx Hl]. rewrite filter_cons.
  destruct (decide (P x)); [|auto].
  simpl. apply NoDup_cons. split; [|auto].
  intros Hin. apply Hx. apply list_elem_of_fmap in Hin as (y & -> & Hy).
  apply list_elem_of_fmap. exists y. split; [done|].
  by apply list_elem_of_filter in Hy as [_ Hy].
Qed.

Lemma NoDup_docs_ids m : NoDup (docs m).*1.
Proof.
  unfold docs. rewrite orderByAsc_Permutation. apply NoDup_fst_map_to_list.
Qed.

(** The two channel lists of the provider: [joinedChannels] holds exactly
    the channels with the identity among the members, [publicChannels]
    exactly the public channels without it; no channel is in both, and
    neither list names a channel twice. *)
Theorem channel_lists_partition (u : string) (m : gmap string Channel) id c :
  ((id, c) ∈ joinedChannelsSnapshot u m <-> m !! id = Some c /\ u ∈ members c) /\
  ((id, c) ∈ publicChannelsSnapshot u m <->
     m !! id = Some c /\ isPublic c = true /\ u ∉ members c) /\
  ~ ((id, c) ∈ joinedChannelsSnapshot u m /\ (id, c) ∈ publicChannelsSnapshot u m) /\
  NoDup (joinedChannelsSnapshot u m).*1 /\
  NoDup (publicChannelsSnapshot u m).*1.
Proof.
  assert (Hj : (id, c) ∈ joinedChannelsSnapshot u m <-> m !! id = Some c /\ u ∈ members c).
  { unfold joinedChannelsSnapshot. rewrite list_elem_of_filter, elem_of_docs. simpl. tauto. }
  assert (Hp : (id, c) ∈ publicChannelsSnapshot u m <->
               m !! id = Some c /\ isPublic c = true /\ u ∉ members c).
  { unfold publicChannelsSnapshot. rewrite list_elem_of_In, filter_In, <- list_elem_of_In.
    rewrite list_elem_of_filter, elem_of_docs. simpl.
    rewrite negb_true_iff, includes_false. tauto. }
  split; [done|]. split; [done|]. split; [rewrite Hj, Hp; tauto|].
  split.
  - apply NoDup_fst_filter, NoDup_docs_ids.
  - apply NoDup_fst_List_filter, NoDup_fst_filter, NoDup_docs_ids.
Qed.

(** [addMemberToChannel] is refused to a caller who is not an admin; an
    admin's call succeeds, appends the identity to [members] when it is
    new and leaves the document as it is when it is already a member. *)
Theorem addMemberToChannel_outcomes (me : User) channelId userId s c :
  channels s !! channelId = Some c ->
  let r := addMemberToChannel (Some me) channelId userId s in
  (uid me ∉ admins c ->
     failsWith "Only channel admins can add members" r /\ channels r.2 = channels s) /\
  (uid me ∈ admins c ->
     r.1 = inr tt /\
     exists c', channels r.2 = <[channelId := c']> (channels s) /\
       userId ∈ members c' /\
       admins c' = admins c /\
       (userId ∈ members c -> c' = c) /\
       (userId ∉ members c -> members c' = members c ++ [userId])).
Proof.
  intros Hc r. subst r. split; intros Ha.
  - apply includes_false in Ha. run_op.
  - apply includes_true in Ha. run_op. split; [done|].
    eexists. split; [done|]. simpl.
    split; [apply elem_of_arrayUnion; by left|]. split; [done|].
    unfold withMembers, arrayUnion. split; intros Hu.
    + rewrite (proj2 (includes_true _ _) Hu).
      match goal with |- _ = ?c0 => by destruct c0 end.
    + by rewrite (proj2 (includes_false _ _) Hu).
Qed.

Lemma addMemberToChannel_outcomes_witness :
  failsWith "Only channel admins can add members"
    (addMemberToChannel (Some bob) "c1" "bob" teamStore) /\
  (addMemberToChannel (Some alice) "c1" "bob" teamStore).1 = inr tt.
Proof.
  pose proof (addMemberToChannel_outcomes bob "c1" "bob" teamStore team eq_refl) as [H1 _].
  pose proof (addMemberToChannel_outcomes alice "c1" "bob" teamStore team eq_refl)
    as [_ H2].
  split.
  - apply H1. simpl. intros H. by apply list_elem_of_singleton in H.
  - apply H2. apply list_elem_of_here.
Defined.

(** A channel just created is found by [getChannelById] under the
    generated id, with the caller as creator, sole member and sole admin
    and a code exactly when private, and it is in the caller's
    [joinedChannels]. *)
Theorem created_channel_is_found (me : User) now newId uuid input s :
  let r1 := createChannel (Some me) now newId uuid input s in
  let r2 := getChannelById (Some me) newId r1.2 in
  r1.1 = inr newId /\
  exists c,
    r2.1 = inr (Some (newId, c)) /\
    channels r2.2 = channels r1.2 /\
    createdBy c = uid me /\ members c = [uid me] /\ admins c = [uid me] /\
    isPublic c = in_isPublic input /\
    inviteCode c = (if in_isPublic input then None else Some uuid) /\
    (newId, c) ∈ joinedChannelsSnapshot (uid me) (channels r2.2).
Proof.
  intros r1 r2. subst r1 r2. unfold getChannelById. run_op.
  all: split; [done|]; rewrite lookup_insert_eq; simpl; eexists; split; [done|];
    repeat (split; [done|]).
  all: unfold joinedChannelsSnapshot; apply list_elem_of_filter; simpl;
    split; [apply list_elem_of_here|]; apply elem_of_docs; by rewrite lookup_insert_eq.
Qed.
End ChannelContextLaws.

(** ** Task store: further laws *)

Module TaskContextLaws.
Import TaskContext Examples Examples.Tasks TaskContextFacts.

(** [addTask] on an input with an item list returns the generated id
    and stores one new document, under the channel's collection when a
    channel id is given and under the personal one otherwise: not started,
    not completed, created by the caller at the clock reading, of type
    regular and private unless the input says otherwise, with the input's
    title, priority and due date and with every shopping item unticked
    under a fresh id; no other document changes.  On an input without an
    item list the data holds [shoppingItems: undefined]: the call fails
    with the SDK's message, stores nothing and records the message.  The
    provider's list changes in neither case. *)
Theorem addTask_outcomes (me : User) now newId uuids input s :
  let r := addTask (Some me) now newId uuids input s in
  let ref := taskRef (TaskInput.channelId input) newId in
  tasks r.2 = tasks s /\
  match TaskInput.shoppingItems input with
  | Some given =>
      r.1 = inr newId /\
      error r.2 = None /\
      (forall ref', ref' <> ref -> taskDocs r.2 !! ref' = taskDocs s !! ref') /\
      exists doc items,
        taskDocs r.2 !! ref = Some doc /\
        Task.status doc = Status.not_started /\
        Task.completed doc = false /\
        Task.createdBy doc = uid me /\
        Task.createdAt doc = now /\
        Task.type doc = Some (default regular (TaskInput.type input)) /\
        Task.privacy doc = default private (TaskInput.privacy input) /\
        Task.title doc = TaskInput.title input /\
        Task.priority doc = TaskInput.priority input /\
        Task.dueDate doc = TaskInput.dueDate input /\
        Task.shoppingItems doc = Some items /\
        length items = length given /\
        forall k item, given !! k = Some item ->
          items !! k = Some (ShoppingItem.mk (uuids k) (ShoppingItemInput.name item) false
                               (ShoppingItemInput.quantity item))
  | None =>
      failsWith UnsupportedFieldValue r /\
      taskDocs r.2 = taskDocs s /\
      error r.2 = Some UnsupportedFieldValue
  end.
Proof.
  intros r ref. subst r ref.
  destruct (TaskInput.shoppingItems input) as [given|] eqn:Hin; run_op.
  all: rewrite Hin in *; simpl in *; try done.
  all: split; [done|]; split; [done|]; split; [done|].
  all: split; [intros ref' Hne; by rewrite lookup_insert_ne|].
  all: eexists _, _; rewrite lookup_insert_eq; split; [done|]; simpl.
  all: repeat (split; [done|]).
  all: split; [by rewrite length_imap|].
  all: intros k item Hk; by rewrite list_lookup_imap, Hk.
Qed.

(** [deleteTask] always succeeds for a signed-in identity: afterwards the
    referenced document does not exist, every other document is as before,
    and when the document did not exist the collection is unchanged. *)
Theorem deleteTask_outcomes (me : User) id channelId s :
  let r := deleteTask (Some me) id channelId s in
  r.1 = inr tt /\
  taskDocs r.2 !! taskRef channelId id = None /\
  (forall ref', ref' <> taskRef channelId id -> taskDocs r.2 !! ref' = taskDocs s !! ref') /\
  tasks r.2 = tasks s /\
  (taskDocs s !! taskRef channelId id = None -> taskDocs r.2 = taskDocs s).
Proof.
  intros r. subst r. run_op. split; [done|].
  split; [by rewrite lookup_delete_eq|].
  split; [intros ref' Hne; by rewrite lookup_delete_ne|].
  split; [done|]. apply delete_id.
Qed.

Lemma deleteTask_outcomes_witness :
  taskDocs (deleteTask (Some alice) "nope" None groceriesStore).2 = taskDocs groceriesStore.
Proof.
  refine (proj2 (proj2 (proj2 (proj2
            (deleteTask_outcomes alice "nope" None groceriesStore)))) _).
  vm_compute. reflexivity.
Defined.

(** Adding a task with an item list under an unused id stores a
    document there, which was not there before, and deleting it again
    with the input's channel id gives back the task collection. *)
Theorem add_delete_roundtrip (me : User) now newId uuids input given s :
  TaskInput.shoppingItems input = Some given ->
  taskDocs s !! taskRef (TaskInput.channelId input) newId = None ->
  let r1 := addTask (Some me) now newId uuids input s in
  let r2 := deleteTask (Some me) newId (TaskInput.channelId input) r1.2 in
  r1.1 = inr newId /\
  is_Some (taskDocs r1.2 !! taskRef (TaskInput.channelId input) newId) /\
  taskDocs r1.2 <> taskDocs s /\
  r2.1 = inr tt /\
  taskDocs r2.2 = taskDocs s.
Proof.
  intros Hin Hn r1 r2. subst r1 r2. run_op.
  all: rewrite Hin in *; simpl in *; try done.
  all: split; [done|]; split; [by rewrite lookup_insert_eq|].
  all: split; [|split; [done|by rewrite delete_insert_id]].
  all: intros Heq; rewrite <- Heq, lookup_insert_eq in Hn; done.
Qed.

Lemma add_delete_roundtrip_witness :
  is_Some (taskDocs (addTask (Some alice) 20 "t9" uuids choreInput groceriesStore).2
             !! taskRef None "t9") /\
  taskDocs (deleteTask (Some alice) "t9" None
              (addTask (Some alice) 20 "t9" uuids choreInput groceriesStore).2).2
  = taskDocs groceriesStore.
Proof.
  destruct (add_delete_roundtrip alice 20 "t9" uuids choreInput [] groceriesStore)
    as (_ & H1 & _ & _ & H2).
  - reflexivity.
  - vm_compute. reflexivity.
  - split; [exact H1|exact H2].
Defined.

(** [toggleTaskCompletion], [updateTask] and [toggleShoppingItem] on a
    reference whose document does not exist fail with the SDK's "No
    document to update", create nothing and record the message; for
    [updateTask] this is so when no property of the updates is
    [undefined], and with such a property the rejection of the data comes
    first. *)
Theorem update_of_missing_document (me : User) uuids id channelId s :
  taskDocs s !! taskRef channelId id = None ->
  (forall completed,
     let r := toggleTaskCompletion (Some me) id completed channelId s in
     failsWith NoDocumentToUpdate r /\ taskDocs r.2 = taskDocs s /\
     error r.2 = Some NoDocumentToUpdate) /\
  (forall updates, Field.read (TaskUpdates.channelId updates) = channelId ->
     let r := updateTask (Some me) uuids id updates s in
     let e := if TaskUpdates.hasUndefined updates then UnsupportedFieldValue
              else NoDocumentToUpdate in
     failsWith e r /\ taskDocs r.2 = taskDocs s /\ error r.2 = Some e) /\
  (forall itemId completed task items,
     findTask id (tasks s) = Some task -> Task.shoppingItems task = Some items ->
     let r := toggleShoppingItem (Some me) id itemId completed channelId s in
     failsWith NoDocumentToUpdate r /\ taskDocs r.2 = taskDocs s /\
     error r.2 = Some NoDocumentToUpdate).
Proof.
  intros Hn. split; [|split].
  - intros completed r. subst r. run_op.
  - intros updates <- r e. subst r e.
    destruct (TaskUpdates.hasUndefined updates) eqn:Hu.
    + by rewrite updateTask_rejects.
    + run_op.
  - intros itemId completed task items Hf Hi r. subst r. run_op.
    match goal with H : option_bind _ _ _ _ = _ |- _ =>
      rewrite Hf in H; simpl in H; rewrite Hi in H; simplify_eq end.
Qed.

Lemma addTask_outcomes_witness :
  (addTask (Some alice) 10 "t1" uuids groceriesInput noTasks).1 = inr "t1" /\
  taskDocs (addTask (Some alice) 10 "t1" uuids groceriesInput noTasks).2
    !! taskRef None "t0" = taskDocs noTasks !! taskRef None "t0".
Proof.
  destruct (addTask_outcomes alice 10 "t1" uuids groceriesInput noTasks)
    as (_ & H1 & _ & H2 & _).
  split; [exact H1|]. apply H2. discriminate.
Defined.

Lemma update_of_missing_document_witness :
  failsWith NoDocumentToUpdate
    (toggleTaskCompletion (Some alice) "t1" true (Some "c1") groceriesStore) /\
  failsWith NoDocumentToUpdate
    (toggleShoppingItem (Some alice) "t1" "item-0" true (Some "c1") groceriesStore).
Proof.
  destruct (update_of_missing_document alice uuids "t1" (Some "c1") groceriesStore)
    as (H1 & _ & H3).
  - vm_compute. reflexivity.
  - split.
    + apply (H1 true).
    + refine (proj1 (H3 "item-0" true groceries groceryItems _ _)).
      * vm_compute. reflexivity.
      * reflexivity.
Defined.

(** After a successful [toggleTaskCompletion] or [toggleShoppingItem] the
    written document has [completed] true exactly when its status is
    completed. *)
Theorem toggles_keep_flag_in_step (me : User) id channelId s :
  (forall completed s',
     toggleTaskCompletion (Some me) id completed channelId s = (inr tt, s') ->
     exists doc, taskDocs s' !! taskRef channelId id = Some doc /\
       (Task.completed doc = true <-> Task.status doc = Status.completed)) /\
  (forall itemId completed s',
     toggleShoppingItem (Some me) id itemId completed channelId s = (inr tt, s') ->
     exists doc, taskDocs s' !! taskRef channelId id = Some doc /\
       (Task.completed doc = true <-> Task.status doc = Status.completed)).
Proof.
  split.
  - intros completed s' H. run_op.
    all: eexists; rewrite lookup_insert_eq; (split; [done|]); simpl.
    all: repeat case_match; done.
  - intros itemId completed s' H.
    apply toggleShoppingItem_success in H as (task & items & doc & _ & _ & _ & ->).
    simpl. eexists. rewrite lookup_insert_eq. split; [done|]. simpl.
    unfold newStatus. destruct (allCompleted _); [done|].
    by destruct (anyCompleted _).
Qed.

Lemma toggles_keep_flag_in_step_witness :
  exists doc, taskDocs milkDone !! taskRef None "t1" = Some doc /\
    (Task.completed doc = true <-> Task.status doc = Status.completed).
Proof.
  apply (proj2 (toggles_keep_flag_in_step alice "t1" None groceriesStore) "item-0" true).
  vm_compute. reflexivity.
Defined.

(** The item update is idempotent with the last flag winning, updates of
    different ids commute, item ids are kept, and afterwards every item of
    the given id carries the given flag. *)
Theorem toggleItems_laws (i j : string) (b c : bool) (items : list ShoppingItem.t) :
  toggleItems i b (toggleItems i c items) = toggleItems i b items /\
  (i <> j ->
     toggleItems i b (toggleItems j c items) = toggleItems j c (toggleItems i b items)) /\
  map ShoppingItem.id (toggleItems i b items) = map ShoppingItem.id items /\
  (forall item, item ∈ toggleItems i b items ->
     ShoppingItem.id item = i -> ShoppingItem.completed item = b).
Proof.
  unfold toggleItems. split; [|split; [|split]].
  - rewrite map_map. apply map_ext. intros x.
    destruct (String.eqb (ShoppingItem.id x) i) eqn:E; simpl; by rewrite E.
  - intros Hne. rewrite !map_map. apply map_ext. intros x.
    destruct (String.eqb (ShoppingItem.id x) i) eqn:Ei;
      destruct (String.eqb (ShoppingItem.id x) j) eqn:Ej; simpl;
      rewrite ?Ei, ?Ej; try done.
    apply String.eqb_eq in Ei, Ej. congruence.
  - rewrite map_map. apply map_ext. intros x.
    by destruct (String.eqb (ShoppingItem.id x) i).
  - intros item Hin Hid. apply list_elem_of_fmap in Hin as (x & -> & _).
    destruct (String.eqb (ShoppingItem.id x) i) eqn:E; [done|].
    apply String.eqb_neq in E. done.
Qed.

Lemma toggleItems_laws_witness :
  toggleItems "item-0" true (toggleItems "item-1" false groceryItems)
  = toggleItems "item-1" false (toggleItems "item-0" true groceryItems).
Proof.
  refine (proj1 (proj2 (toggleItems_laws "item-0" "item-1" true false groceryItems)) _).
  discriminate.
Defined.

(** Two successful [toggleShoppingItem] calls with no snapshot delivered
    in between both start from the provider's copy of the list: the stored
    list after the second call is that copy with only the second tick
    applied, so the first tick is lost. *)
Theorem ticks_without_delivery_are_lost (me : User) taskId channelId i j b c s s1 s2 :
  toggleShoppingItem (Some me) taskId i b channelId s = (inr tt, s1) ->
  toggleShoppingItem (Some me) taskId j c channelId s1 = (inr tt, s2) ->
  exists task items,
    findTask taskId (tasks s) = Some task /\
    Task.shoppingItems task = Some items /\
    (Task.shoppingItems <$> taskDocs s1 !! taskRef channelId taskId)
      = Some (Some (toggleItems i b items)) /\
    (Task.shoppingItems <$> taskDocs s2 !! taskRef channelId taskId)
      = Some (Some (toggleItems j c items)).
Proof.
  intros H1 H2.
  apply toggleShoppingItem_success in H1 as (task & items & doc & Hf & Hi & Hd & ->).
  apply toggleShoppingItem_success in H2 as (task' & items' & doc' & Hf' & Hi' & Hd' & ->).
  simpl in *. rewrite Hf in Hf'. simplify_eq.
  eexists _, _. split; [done|]. split; [done|].
  by rewrite !lookup_insert_eq.
Qed.

Lemma ticks_without_delivery_are_lost_witness :
  (Task.shoppingItems <$>
     taskDocs (toggleShoppingItem (Some alice) "t1" "item-1" true None milkDone).2
       !! taskRef None "t1")
  = Some (Some (toggleItems "item-1" true groceryItems)).
Proof.
  destruct (ticks_without_delivery_are_lost alice "t1" None "item-0" "item-1" true true
              groceriesStore milkDone
              (toggleShoppingItem (Some alice) "t1" "item-1" true None milkDone).2)
    as (task & items & Hf & Hi & _ & H2).
  - vm_compute. reflexivity.
  - vm_compute. reflexivity.
  - vm_compute in Hf. injection Hf as <-. simpl in Hi. injection Hi as <-. exact H2.
Defined.
End TaskContextLaws.

(** ** Task views *)

Module TaskViewsLaws.
Import TaskContext Examples Examples.Tasks TaskContextFacts.




Lemma derivedFrom_nonempty items t :
  items <> [] -> derivedFrom items t -> derivedAsSpecified items t.
Proof.
  intros Hne (H1 & H2 & H3 & H4). split; [done|]. split; [|split; [|done]].
  - rewrite H2. tauto.
  - rewrite H3. split.
    + intros [(i & Hi & Hc) (j & Hj & Hd)]. split; intros H.
      * specialize (H j Hj). congruence.
      * specialize (H i Hi). congruence.
    + intros [Hna Hnn]. split.
      * destruct (anyCompleted items) eqn:E; [by apply anyCompleted_true|].
        destruct Hnn. by apply anyCompleted_false.
      * destruct (allCompleted items) eqn:E; [|by apply allCompleted_false].
        destruct Hna. by apply allCompleted_true.
Qed.

Lemma existsb_item_id itemId items :
  existsb (fun item => String.eqb (ShoppingItem.id item) itemId) items = true <->
  exists i, i ∈ items /\ ShoppingItem.id i = itemId.
Proof.
  rewrite existsb_exists. split; intros (i & Hi & He); exists i.
  - split; [by apply list_elem_of_In|by apply String.eqb_eq].
  - split; [by apply list_elem_of_In|by apply String.eqb_eq].
Qed.

(** TaskList's click handler leaves everything as it is when the task or
    the item is not in its list; for a listed item of an existing document
    the stored list gets the tick and the stored status and flag are
    derived exactly as the specification words it. *)
Theorem click_reaches_store_for_listed_items (me : User) shown taskId itemId completed s :
  let s' := TaskList.handleShoppingItemClick (Some me) shown taskId itemId completed s in
  ((forall task items,
       findTask taskId shown = Some task -> Task.shoppingItems task = Some items ->
       forall i, i ∈ items -> ShoppingItem.id i <> itemId) ->
   s' = s) /\
  (forall task items doc,
     findTask taskId shown = Some task ->
     findTask taskId (tasks s) = Some task ->
     Task.shoppingItems task = Some items ->
     (exists i, i ∈ items /\ ShoppingItem.id i = itemId) ->
     taskDocs s !! taskRef (Task.channelId task) taskId = Some doc ->
     exists doc',
       taskDocs s' !! taskRef (Task.channelId task) taskId = Some doc' /\
       Task.shoppingItems doc' = Some (toggleItems itemId (negb completed) items) /\
       derivedAsSpecified (toggleItems itemId (negb completed) items) doc').
Proof.
  intros s'. subst s'. unfold TaskList.handleShoppingItemClick. split.
  - intros Hnone. destruct (findTask taskId shown) as [task|] eqn:Hf; [|done].
    destruct (Task.shoppingItems task) as [items|] eqn:Hi; [|done].
    destruct (existsb _ items) eqn:E; [|done].
    apply existsb_item_id in E as (i & Hin & Hid).
    by destruct (Hnone task items eq_refl Hi i Hin).
  - intros task items doc Hshown Hf Hi Hex Hd. rewrite Hshown, Hi.
    rewrite (proj2 (existsb_item_id itemId items) Hex).
    destruct (toggleShoppingItem (Some me) taskId itemId (negb completed)
                (Task.channelId task) s) as [res s1] eqn:Hrun.
    assert (Hok : res = inr tt).
    { revert Hrun. run_op.
      all: match goal with H : option_bind _ _ _ _ = _ |- _ =>
             rewrite Hf in H; simpl in H; rewrite Hi in H; simplify_eq end. }
    subst res. apply toggleShoppingItem_success in Hrun
      as (task0 & items0 & doc0 & Hf0 & Hi0 & Hd0 & ->).
    rewrite Hf in Hf0. simplify_eq. simpl. rewrite lookup_insert_eq.
    eexists. split; [done|]. split; [done|].
    apply derivedFrom_nonempty; [|apply newStatus_derived].
    destruct Hex as (i & Hin & _). unfold toggleItems. intros Hnil.
    apply map_eq_nil in Hnil. subst. by apply not_elem_of_nil in Hin.
Qed.

Lemma click_reaches_store_for_listed_items_witness :
  TaskList.handleShoppingItemClick (Some alice) [groceries] "t1" "nope" false
    groceriesStore = groceriesStore /\
  exists doc',
    taskDocs (TaskList.handleShoppingItemClick (Some alice) [groceries] "t1" "item-0"
                false groceriesStore) !! taskRef None "t1" = Some doc' /\
    derivedAsSpecified (toggleItems "item-0" true groceryItems) doc'.
Proof.
  split.
  - refine (proj1 (click_reaches_store_for_listed_items alice [groceries] "t1" "nope"
                     false groceriesStore) _).
    intros task items Hf Hi i Hin. vm_compute in Hf. injection Hf as <-.
    simpl in Hi. injection Hi as <-.
    repeat (apply elem_of_cons in Hin as [->|Hin]; [done|]).
    by apply not_elem_of_nil in Hin.
  - destruct (proj2 (click_reaches_store_for_listed_items alice [groceries] "t1" "item-0"
                       false groceriesStore) groceries groceryItems groceries)
      as (doc' & H1 & _ & H3).
    + reflexivity.
    + vm_compute. reflexivity.
    + reflexivity.
    + eexists. split; [apply list_elem_of_here|reflexivity].
    + vm_compute. reflexivity.
    + exists doc'. split; [exact H1|exact H3].
Defined.

Lemma local_every itemId completed items :
  forallb (fun item =>
             if String.eqb (ShoppingItem.id item) itemId
             then negb completed else ShoppingItem.completed item) items
  = allCompleted (toggleItems itemId (negb completed) items).
Proof.
  unfold allCompleted, toggleItems. induction items as [|x l IH]; [done|]. simpl.
  rewrite IH. by destruct (String.eqb (ShoppingItem.id x) itemId).
Qed.

(** After a tick in the details modal the modal's list equals the stored
    one, but its status differs from the stored status exactly when the
    list has items and none is ticked: the modal then shows in progress
    and the store holds not started. *)
Theorem modal_status_and_stored_status (me : User) task itemId completed s current
    cached items doc :
  findTask (Task.id task) (tasks s) = Some cached ->
  Task.shoppingItems cached = Some items ->
  Task.shoppingItems current = Some items ->
  taskDocs s !! taskRef (Task.channelId task) (Task.id task) = Some doc ->
  let after := TaskDetailsModal.handleShoppingItemToggle (Some me) task itemId completed
                 (s, current) in
  let items' := toggleItems itemId (negb completed) items in
  exists doc',
    taskDocs after.1 !! taskRef (Task.channelId task) (Task.id task) = Some doc' /\
    Task.shoppingItems doc' = Some items' /\
    Task.shoppingItems after.2 = Some items' /\
    (Task.status after.2 <> Task.status doc' <->
       items' <> [] /\ forall i, i ∈ items' -> ShoppingItem.completed i = false) /\
    (Task.status after.2 <> Task.status doc' ->
       Task.status after.2 = Status.in_progress /\ Task.status doc' = Status.not_started).
Proof.
  intros Hf Hi Hc Hd after items'. subst after items'.
  unfold TaskDetailsModal.handleShoppingItemToggle. simpl.
  destruct (toggleShoppingItem (Some me) (Task.id task) itemId (negb completed)
              (Task.channelId task) s) as [res s1] eqn:Hrun.
  assert (Hok : res = inr tt).
  { revert Hrun. run_op.
    all: match goal with H : option_bind _ _ _ _ = _ |- _ =>
           rewrite Hf in H; simpl in H; rewrite Hi in H; simplify_eq end. }
  subst res. apply toggleShoppingItem_success in Hrun
    as (task0 & items0 & doc0 & Hf0 & Hi0 & Hd0 & ->).
  rewrite Hf in Hf0. simplify_eq. simpl. rewrite lookup_insert_eq.
  eexists. split; [done|]. split; [done|].
  unfold TaskDetailsModal.localUpdate. simpl. rewrite Hc. simpl.
  split; [done|]. rewrite local_every.
  match goal with |- context [allCompleted ?l0] => set (l := l0) end.
  pose proof (newStatus_derived l doc) as (_ & H2 & _). simpl in H2.
  unfold newStatus in *.
  destruct (allCompleted l) eqn:Ha; [|destruct (anyCompleted l) eqn:Hb].
  - split; [|done]. split; [done|]. intros HH. apply H2 in HH. discriminate HH.
  - split; [|done]. split; [done|]. intros HH. apply H2 in HH. discriminate HH.
  - split; [|done]. split; [intros _; by apply H2|done].
Qed.

Lemma modal_status_and_stored_status_witness :
  let after := TaskDetailsModal.handleShoppingItemToggle (Some alice) groceries "item-0"
                 true (groceriesStore, groceries) in
  Task.shoppingItems after.2 = Some (toggleItems "item-0" false groceryItems).
Proof.
  intros after.
  destruct (modal_status_and_stored_status alice groceries "item-0" true groceriesStore
              groceries groceries groceryItems groceries)
    as (doc' & _ & _ & H & _).
  - vm_compute. reflexivity.
  - reflexivity.
  - reflexivity.
  - vm_compute. reflexivity.
  - exact H.
Defined.

Lemma List_filter_none {A} (f : A -> bool) l :
  (forall x, In x l -> f x = false) -> List.filter f l = [].
Proof.
  induction l as [|x l IH]; [done|]. intros H. simpl.
  rewrite (H x (or_introl eq_refl)). apply IH. intros y Hy. apply H. by right.
Qed.

Lemma List_filter_all {A} (f : A -> bool) l :
  (forall x, In x l -> f x = true) -> List.filter f l = l.
Proof.
  intros H. apply forallb_filter_id. by apply forallb_forall.
Qed.

Lemma channelTasksQuery_channelId channel m t :
  t ∈ channelTasksQuery channel m -> Task.channelId t = Some channel.
Proof.
  unfold channelTasksQuery. intros Hin. by apply list_elem_of_fmap in Hin as (d & -> & _).
Qed.

Lemma truthy_Some c : c <> "" -> truthy (Some c) = true.
Proof. intros Hne. simpl. apply negb_true_iff. by apply String.eqb_neq. Qed.

(** A delivery of a channel's tasks does not touch the documents, replaces
    the tasks of that channel in the provider's list by the query result,
    keeps every other task, and is idempotent. *)
Theorem channel_delivery_replaces_one_channel (channel : string) (s : State) :
  channel <> "" ->
  let s' := onChannelSnapshot channel s in
  taskDocs s' = taskDocs s /\
  (forall t, Task.channelId t = Some channel ->
     (t ∈ tasks s' <-> t ∈ channelTasksQuery channel (taskDocs s))) /\
  (forall t, Task.channelId t <> Some channel -> (t ∈ tasks s' <-> t ∈ tasks s)) /\
  onChannelSnapshot channel s' = s'.
Proof.
  intros Hne s'. subst s'. unfold onChannelSnapshot, setTasks. simpl.
  pose proof (truthy_Some channel Hne) as Htr.
  set (nt := fun t : Task.t => negb (truthy (Task.channelId t))).
  set (other := fun t : Task.t =>
                  truthy (Task.channelId t)
                  && negb (bool_decide (Task.channelId t = Some channel))).
  set (Q := channelTasksQuery channel (taskDocs s)).
  assert (HQ : forall t, In t Q -> Task.channelId t = Some channel).
  { intros t Ht. apply (channelTasksQuery_channelId channel (taskDocs s)).
    by apply list_elem_of_In. }
  split; [done|]. split; [|split].
  - intros t Ht. rewrite !elem_of_app, !list_elem_of_In, !filter_In.
    subst nt other. simpl. rewrite Ht, Htr. simpl.
    rewrite bool_decide_eq_true_2 by done. simpl. split; [|tauto].
    intros [[_ ?]|[[_ ?]|?]]; done.
  - intros t Ht. rewrite !elem_of_app, !list_elem_of_In, !filter_In.
    subst nt other. simpl. rewrite bool_decide_eq_false_2 by done. simpl.
    rewrite andb_true_r. split.
    + intros [[? _]|[[? _]|HQt]]; [done|done|]. by destruct Ht, (HQ t HQt).
    + intros Hin. destruct (truthy (Task.channelId t)); simpl; auto.
  - f_equal. rewrite !List.filter_app.
    rewrite (List_filter_all nt (List.filter nt (tasks s)))
      by (intros x Hx; by apply filter_In in Hx as [_ ?]).
    rewrite (List_filter_none nt (List.filter other (tasks s))).
    2:{ intros x Hx. apply filter_In in Hx as [_ Hx]. subst nt other. simpl in *.
        apply andb_true_iff in Hx as [-> _]. done. }
    rewrite (List_filter_none nt Q).
    2:{ intros x Hx. subst nt. simpl. by rewrite (HQ x Hx), Htr. }
    rewrite (List_filter_none other (List.filter nt (tasks s))).
    2:{ intros x Hx. apply filter_In in Hx as [_ Hx]. subst nt other. simpl in *.
        apply negb_true_iff in Hx. by rewrite Hx. }
    rewrite (List_filter_all other (List.filter other (tasks s)))
      by (intros x Hx; by apply filter_In in Hx as [_ ?]).
    rewrite (List_filter_none other Q).
    2:{ intros x Hx. subst other. simpl. rewrite (HQ x Hx), Htr. simpl.
        by rewrite bool_decide_eq_true_2. }
    by rewrite !app_nil_r.
Qed.

Lemma channel_delivery_replaces_one_channel_witness :
  onChannelSnapshot "c1" (onChannelSnapshot "c1" groceriesStore)
  = onChannelSnapshot "c1" groceriesStore.
Proof.
  refine (proj2 (proj2 (proj2
            (channel_delivery_replaces_one_channel "c1" groceriesStore _)))).
  discriminate.
Defined.

(** The personal query delivers exactly the documents of the personal
    collection that the identity created or that are public, each under
    its document id, newest first; another identity's private task is
    never delivered. *)
Theorem personal_query_delivers (u : string) (m : gmap TaskRef Task.t) :
  (forall t, t ∈ personalTasksQuery u m <->
     exists id doc, m !! (None, id) = Some doc /\
       (Task.createdBy doc = u \/ Task.privacy doc = public) /\
       t = withId id doc) /\
  StronglySorted (fun a b => Task.createdAt b <= Task.createdAt a)
    (personalTasksQuery u m).
Proof.
  unfold personalTasksQuery, newestFirst. split.
  - intros t. rewrite list_elem_of_fmap. split.
    + intros ([[col id] doc] & -> & Hin).
      rewrite orderByDesc_Permutation in Hin.
      apply list_elem_of_filter in Hin as [[Hcol Hvis] Hin]. simpl in *. subst col.
      apply elem_of_map_to_list in Hin. eauto.
    + intros (id & doc & Hl & Hvis & ->). exists ((None, id), doc). split; [done|].
      rewrite orderByDesc_Permutation. apply list_elem_of_filter. split; [done|].
      by apply elem_of_map_to_list.
  - apply StronglySorted_fmap
      with (R1 := fun a b : TaskRef * Task.t =>
                    keyLe (Task.createdAt b.2, b.1.2) (Task.createdAt a.2, a.1.2)).
    + intros [ka a] [kb b] [Hlt|[Heq _]]; simpl in *; lia.
    + apply (orderByDesc_sorted (fun d : TaskRef * Task.t => (Task.createdAt d.2, d.1.2))).
Qed.
End TaskViewsLaws.

(** ** Channel chat: further laws *)

Module ChatContextLaws.
Import ChatContext Examples Examples.Chat.

Lemma channelMessagesQuery_unfold channel m :
  channelMessagesQuery channel m
  = map (fun d => withId d.1.2 d.2) (take 100 (channelDocs channel m)).
Proof. done. Qed.

Lemma elem_of_channelDocs channel m ref msg :
  (ref, msg) ∈ channelDocs channel m <-> ref.1 = channel /\ m !! ref = Some msg.
Proof.
  unfold channelDocs. rewrite orderByAsc_Permutation, list_elem_of_filter.
  by rewrite elem_of_map_to_list.
Qed.

Lemma channelDocs_sorted channel m :
  StronglySorted (fun a b : MessageRef * Message =>
                    keyLe (createdAt a.2, a.1.2) (createdAt b.2, b.1.2))
    (channelDocs channel m).
Proof.
  apply (orderByAsc_sorted (fun d : MessageRef * Message => (createdAt d.2, d.1.2))).
Qed.

Lemma NoDup_channelDocs channel m : NoDup (channelDocs channel m).
Proof.
  unfold channelDocs. rewrite orderByAsc_Permutation.
  apply NoDup_filter, NoDup_map_to_list.
Qed.

(** The channel log has at most 100 messages, all of that channel, oldest
    first; it holds every message of the channel when it has fewer than
    100, and a message that is left out is at least as new as every
    message in the log. *)
Theorem channel_log_keeps_oldest (channel : string) (m : gmap MessageRef Message) :
  let log := channelMessagesQuery channel m in
  (length log <= 100)%nat /\
  StronglySorted (fun a b => createdAt a <= createdAt b) log /\
  (forall msg, msg ∈ log ->
     exists id doc, m !! (channel, id) = Some doc /\ msg = withId id doc) /\
  ((length log < 100)%nat ->
     forall id doc, m !! (channel, id) = Some doc -> withId id doc ∈ log) /\
  (forall id doc, m !! (channel, id) = Some doc -> withId id doc ∉ log ->
     forall msg, msg ∈ log -> createdAt msg <= createdAt doc).
Proof.
  intros log. subst log. rewrite channelMessagesQuery_unfold.
  set (L := channelDocs channel m).
  split; [rewrite length_map, length_take; lia|]. split; [|split; [|split]].
  - apply StronglySorted_fmap
      with (R1 := fun a b : MessageRef * Message =>
                    keyLe (createdAt a.2, a.1.2) (createdAt b.2, b.1.2)).
    + intros [ka a] [kb b] [Hlt|[Heq _]]; simpl in *; lia.
    + apply (StronglySorted_app_1_l _ (take 100 L) (drop 100 L)).
      rewrite take_drop. apply channelDocs_sorted.
  - intros msg Hin. apply list_elem_of_fmap in Hin as ([[ch id] doc] & -> & Hin).
    assert (Hin' : ((ch, id), doc) ∈ L).
    { apply elem_of_take in Hin as (i & Hi & _). by apply list_elem_of_lookup_2 in Hi. }
    apply elem_of_channelDocs in Hin' as [Hch Hl]. simpl in *. subst ch. eauto.
  - rewrite length_map, length_take. intros Hlt id doc Hl.
    assert (HL : (length L <= 100)%nat).
    { apply Nat.min_lt_iff in Hlt as [Hlt|Hlt]; [by apply Nat.lt_irrefl in Hlt|]. by apply Nat.lt_le_incl. }
    rewrite take_ge by done. apply list_elem_of_fmap. exists ((channel, id), doc).
    split; [done|]. by apply elem_of_channelDocs.
  - intros id doc Hl Hout msg Hin.
    apply list_elem_of_fmap in Hin as ([kx x] & -> & Hin). simpl.
    assert (HinL : ((channel, id), doc) ∈ take 100 L ++ drop 100 L).
    { rewrite take_drop. by apply elem_of_channelDocs. }
    apply elem_of_app in HinL as [Htake|Hdrop].
    + destruct Hout. apply list_elem_of_fmap. by exists ((channel, id), doc).
    + pose proof (channelDocs_sorted channel m) as HS. fold L in HS.
      rewrite <- (take_drop 100 L) in HS.
      pose proof (StronglySorted_app_1_elem_of _ _ _ _ _ HS Hin Hdrop) as [?|[? _]];
        simpl in *; lia.
Qed.

Lemma channel_log_keeps_oldest_witness :
  createdAt (mkMessage "m0" "hello" "alice" "Alice" 0 "c1")
  <= createdAt (mkMessage "m100" "hello" "alice" "Alice" 100 "c1").
Proof.
  destruct (channel_log_keeps_oldest "c1" (messageDocs busyChannel)) as (_ & _ & _ & _ & H).
  refine (H "m100" (mkMessage "m100" "hello" "alice" "Alice" 100 "c1") _ _
            (mkMessage "m0" "hello" "alice" "Alice" 0 "c1") _).
  - vm_compute. reflexivity.
  - intros Hm. apply (list_elem_of_fmap_2 id) in Hm.
    apply (bool_decide_pack _) in Hm. vm_compute in Hm. destruct Hm.
  - apply list_elem_of_lookup_2 with 0%nat. vm_compute. reflexivity.
Defined.

Lemma sendMessage_run (me : User) now newId channel content s :
  sendMessage (Some me) now newId channel content s
  = (inr tt,
     mkState (<[(channel, newId) :=
                  mkMessage newId content (uid me) (senderNameOf me) now channel]>
                (messageDocs s)) (messages s) (loading s) None).
Proof. done. Qed.

(** A message sent to a channel whose log has fewer than 99 messages is
    stored under the sender's uid and display name ("Anonymous" when the
    name is missing or empty) and is in the log after the next snapshot. *)
Theorem sent_message_reaches_log (me : User) now newId channel content s :
  (length (channelMessagesQuery channel (messageDocs s)) < 99)%nat ->
  let sent := mkMessage newId content (uid me) (senderNameOf me) now channel in
  let r := sendMessage (Some me) now newId channel content s in
  r.1 = inr tt /\
  messageDocs r.2 !! (channel, newId) = Some sent /\
  sent ∈ messages (onMessagesSnapshot channel r.2) /\
  (displayName me = None \/ displayName me = Some "" -> senderName sent = "Anonymous").
Proof.
  intros Hlen sent r. subst sent r. rewrite sendMessage_run. simpl.
  split; [done|]. split; [by rewrite lookup_insert_eq|]. split.
  - set (m' := <[(channel, newId):=_]> (messageDocs s)).
    set (sent := mkMessage newId content (uid me) (senderNameOf me) now channel).
    destruct (channel_log_keeps_oldest channel m') as (_ & _ & _ & Hall & _).
    change sent with (withId newId sent).
    apply Hall; [|by subst m'; rewrite lookup_insert_eq].
    rewrite channelMessagesQuery_unfold, length_map, length_take in *.
    assert (HL : (length (channelDocs channel m')
                  <= S (length (channelDocs channel (messageDocs s))))%nat).
    { transitivity (length (((channel, newId), sent) :: channelDocs channel (messageDocs s)));
        [|done].
      apply submseteq_length, NoDup_submseteq; [apply NoDup_channelDocs|].
      intros [ref msg] Hin. apply elem_of_channelDocs in Hin as [Hch Hl].
      subst m'. apply lookup_insert_Some in Hl as [[<- <-]|[Hne Hl]]; [left|right].
      by apply elem_of_channelDocs. }
    apply Nat.min_lt_iff in Hlen as [Hlen|Hlen]; [lia|].
    apply Nat.min_lt_iff. right. unfold MessageRef in *. lia.
  - unfold senderNameOf. intros [->| ->]; done.
Qed.

Lemma sent_message_reaches_log_witness :
  mkMessage "m3" "hi" "bob" "Anonymous" 7 "c1"
  ∈ messages (onMessagesSnapshot "c1" (sendMessage (Some bob) 7 "m3" "c1" "hi" (chatter 3)).2).
Proof.
  refine (proj1 (proj2 (proj2
            (sent_message_reaches_log bob 7 "m3" "c1" "hi" (chatter 3) _)))).
  vm_compute. lia.
Defined.

(** Once a channel holds 100 messages older than a new one, the new
    message is stored but never enters the log. *)
Theorem full_channel_hides_new_messages (me : User) now newId channel content s older :
  NoDup older ->
  (100 <= length older)%nat ->
  (forall ref msg, (ref, msg) ∈ older ->
     ref.1 = channel /\ messageDocs s !! ref = Some msg /\ ref.2 <> newId /\
     createdAt msg < now) ->
  let r := sendMessage (Some me) now newId channel content s in
  r.1 = inr tt /\
  forall msg, msg ∈ messages (onMessagesSnapshot channel r.2) -> id msg <> newId.
Proof.
  intros Hnd Hlen Hold r. subst r. rewrite sendMessage_run. simpl. split; [done|].
  set (sent := mkMessage newId content (uid me) (senderNameOf me) now channel).
  set (m' := <[(channel, newId):=sent]> (messageDocs s)).
  intros msg Hin Hid. rewrite channelMessagesQuery_unfold in Hin.
  apply list_elem_of_fmap in Hin as ([[ch i] x] & -> & Hin). simpl in Hid. subst i.
  set (L := channelDocs channel m') in *.
  apply elem_of_take in Hin as (k & Hk & Hk100).
  assert (HinL : ((ch, newId), x) ∈ L) by (by apply list_elem_of_lookup_2 in Hk).
  apply elem_of_channelDocs in HinL as [Hch Hl]. simpl in Hch. subst ch.
  subst m'. rewrite lookup_insert_eq in Hl. injection Hl as <-.
  (* every older message sits before position [k] *)
  assert (Hbefore : forall d, d ∈ older -> d ∈ take k L).
  { intros [ref old] Hd. destruct (Hold ref old Hd) as (Hch & Hl & Hne & Hlt).
    assert (HdL : (ref, old) ∈ take k L ++ drop k L).
    { rewrite take_drop. apply elem_of_channelDocs. split; [done|].
      rewrite lookup_insert_ne; [done|]. destruct ref as [c i]. simpl in *. congruence. }
    apply elem_of_app in HdL as [?|Hdrop]; [done|].
    pose proof (channelDocs_sorted channel (<[(channel, newId):=sent]> (messageDocs s)))
      as HS. fold L in HS.
    apply list_elem_of_lookup_1 in Hdrop as [j Hj]. rewrite lookup_drop in Hj.
    destruct j as [|j].
    - rewrite Nat.add_0_r, Hk in Hj. injection Hj as <- <-. simpl in *. done.
    - rewrite <- (take_drop (S k) L) in HS.
      assert (H1 : ((channel, newId), sent) ∈ take (S k) L).
      { apply elem_of_take. exists k. split; [done|lia]. }
      assert (H2 : (ref, old) ∈ drop (S k) L).
      { apply list_elem_of_lookup_2 with j. rewrite lookup_drop.
        by replace (S k + j)%nat with (k + S j)%nat by lia. }
      pose proof (StronglySorted_app_1_elem_of _ _ _ _ _ HS H1 H2) as [?|[? _]];
        simpl in *; lia. }
  pose proof (submseteq_length _ _ (NoDup_submseteq _ _ Hnd Hbefore)) as Hle.
  rewrite length_take in Hle. lia.
Qed.

Lemma full_channel_hides_new_messages_witness :
  (sendMessage (Some bob) 200 "new" "c1" "late" busyChannel).1 = inr tt /\
  id (mkMessage "m0" "hello" "alice" "Alice" 0 "c1") <> "new".
Proof.
  assert (Hlog : mkMessage "m0" "hello" "alice" "Alice" 0 "c1"
                 ∈ messages (onMessagesSnapshot "c1"
                      (sendMessage (Some bob) 200 "new" "c1" "late" busyChannel).2)).
  { apply list_elem_of_lookup_2 with 0%nat. vm_compute. reflexivity. }
  cut ((sendMessage (Some bob) 200 "new" "c1" "late" busyChannel).1 = inr tt /\
       forall msg,
         msg ∈ messages (onMessagesSnapshot "c1"
                           (sendMessage (Some bob) 200 "new" "c1" "late" busyChannel).2) ->
         id msg <> "new").
  { intros [H1 H2]. split; [exact H1|exact (H2 _ Hlog)]. }
  refine (full_channel_hides_new_messages bob 200 "new" "c1" "late" busyChannel
            (map_to_list (messageDocs busyChannel)) _ _ _).
  - apply NoDup_map_to_list.
  - apply Nat.leb_le. vm_compute. reflexivity.
  - assert (Hall : forallb (fun d : MessageRef * Message =>
                              String.eqb d.1.1 "c1" && negb (String.eqb d.1.2 "new")
                              && Z.ltb (createdAt d.2) 200)
                     (map_to_list (messageDocs busyChannel)) = true)
      by (vm_compute; reflexivity).
    intros ref msg Hin. rewrite forallb_forall in Hall.
    specialize (Hall (ref, msg) (proj1 (list_elem_of_In _ _) Hin)). simpl in Hall.
    apply andb_true_iff in Hall as [Hall Ht]. apply andb_true_iff in Hall as [Hc Hn].
    apply String.eqb_eq in Hc. apply negb_true_iff, String.eqb_neq in Hn.
    apply Z.ltb_lt in Ht. apply elem_of_map_to_list in Hin.
    split; [exact Hc|split; [exact Hin|split; [exact Hn|exact Ht]]].
Defined.
End ChatContextLaws.

(** ** Direct messages: further laws *)

Module DirectMessageContextLaws.
Import DirectMessageContext Examples Examples.Channels Examples.DirectMessages.
Import DirectMessageContextFacts.

(** Both parties get the same conversation, oldest first; for two
    distinct identities it holds exactly the messages one of them sent to
    the other, and the conversation of an identity with itself is its whole
    inbox. *)
Theorem conversation_is_shared (me other : string) (m : gmap string DirectMessage) :
  conversationQuery me other m = conversationQuery other me m /\
  conversationQuery me me m = inboxQuery me m /\
  StronglySorted (fun a b => createdAt a <= createdAt b) (conversationQuery me other m) /\
  (me <> other ->
     forall msg, msg ∈ conversationQuery me other m <->
       exists id doc, m !! id = Some doc /\ msg = withId id doc /\
         ((senderId doc = me /\ receiverId doc = other) \/
          (senderId doc = other /\ receiverId doc = me))).
Proof.
  unfold conversationQuery, inboxQuery. split; [|split; [|split]].
  - do 2 f_equal. apply list_filter_iff. intros d. tauto.
  - do 2 f_equal. apply list_filter_iff. intros d. tauto.
  - apply StronglySorted_fmap
      with (R1 := fun a b : string * DirectMessage =>
                    keyLe (createdAt a.2, a.1) (createdAt b.2, b.1)).
    + intros [ka a] [kb b] [Hlt|[Heq _]]; simpl in *; lia.
    + apply (orderByAsc_sorted (fun d : string * DirectMessage => (createdAt d.2, d.1))).
  - intros Hne msg. rewrite list_elem_of_fmap. split.
    + intros ([id doc] & -> & Hin). rewrite orderByAsc_Permutation in Hin.
      apply list_elem_of_filter in Hin as [[H1 H2] Hin]. simpl in *.
      apply elem_of_map_to_list in Hin. exists id, doc. split; [done|]. split; [done|].
      destruct H1 as [H1|H1], H2 as [H2|H2]; auto; congruence.
    + intros (id & doc & Hl & -> & Hc). exists (id, doc). split; [done|].
      rewrite orderByAsc_Permutation. apply list_elem_of_filter. simpl.
      split; [|by apply elem_of_map_to_list]. destruct Hc as [[-> ->]|[-> ->]]; auto.
Qed.

(** When each of two identities may message the other, a message sent by
    the first is stored and is in the list that [getMessagesWithUser]
    returns to the second, which also becomes the provider's log. *)
Theorem sent_message_is_received (a b : User) joinedA joinedB now newId content s :
  canMessageUser (Some a) joinedA (uid b) = true ->
  canMessageUser (Some b) joinedB (uid a) = true ->
  let sent := mkDirectMessage newId content (uid a) (uid b) (senderNameOf a) now in
  let r1 := sendMessage (Some a) joinedA now newId (uid b) content s in
  let r2 := getMessagesWithUser (Some b) joinedB (uid a) r1.2 in
  r1.1 = inr tt /\
  directMessages r1.2 !! newId = Some sent /\
  exists l, r2.1 = inr l /\ sent ∈ l /\ messages r2.2 = l /\ loading r2.2 = false /\
            error r2.2 = None.
Proof.
  intros Ha Hb sent r1 r2. subst sent r1 r2.
  unfold sendMessage, getMessagesWithUser, requireUser. unfold_provider.
  rewrite Ha, Hb. simpl.
  split; [done|]. split; [by rewrite lookup_insert_eq|].
  eexists. split; [done|]. split; [|done].
  unfold conversationQuery. apply list_elem_of_fmap.
  eexists (newId, _). split; [|rewrite orderByAsc_Permutation; apply list_elem_of_filter;
    split; [|apply elem_of_map_to_list, lookup_insert_eq]].
  - done.
  - simpl. auto.
Qed.

Lemma sent_message_is_received_witness :
  (sendMessage (Some alice) (joinedOf "alice" sharedChannels) 5 "d1" "bob" "hi"
     noMessages).1 = inr tt.
Proof.
  refine (proj1 (sent_message_is_received alice bob (joinedOf "alice" sharedChannels)
                   (joinedOf "bob" sharedChannels) 5 "d1" "hi" noMessages _ _)).
  - vm_compute. reflexivity.
  - vm_compute. reflexivity.
Defined.

Lemma conversation_is_shared_witness :
  let docs := directMessages
                (sendMessage (Some alice) (joinedOf "alice" sharedChannels) 5 "d1" "bob" "hi"
                   noMessages).2 in
  let msg := mkDirectMessage "d1" "hi" "alice" "bob" "Alice" 5 in
  msg ∈ conversationQuery "alice" "bob" docs <->
  exists id doc, docs !! id = Some doc /\ msg = withId id doc /\
    ((senderId doc = "alice" /\ receiverId doc = "bob") \/
     (senderId doc = "bob" /\ receiverId doc = "alice")).
Proof.
  intros docs msg.
  refine (proj2 (proj2 (proj2 (conversation_is_shared "alice" "bob" docs))) _ msg).
  discriminate.
Defined.
End DirectMessageContextLaws.
